(** * Key-value TCP server (SET / GET / DEL): model and properties

    Shallow embedding of the two C programs of the repository:
    - [Server2] follows [src/server2.c] (small functions, bounded scanning,
      retrying write loop, orderly shutdown on SIGINT);
    - [Servidor] follows [src/servidor.c] (single handler, unbounded scanning,
      one plain write, [exit] on I/O failures).

    C strings are [string]s whose bytes are [ascii]; a [char] array is a
    [string] of the array's length, the C string it holds being its prefix up
    to the first NUL.  The operating system (file system, sockets, signals)
    is a parameter of the functions: a [World] for the state and a script of
    results for the calls whose outcome the program does not control. *)

From Stdlib Require Import ZArith String Ascii List Bool Lia.
From stdpp Require Import gmap strings.

Open Scope string_scope.

#[global] Arguments String.append !s1 s2 : simpl nomatch.
#[global] Arguments Ascii.eqb : simpl never.

(** ** C strings and [char] arrays *)

Module CStr.

Definition NUL : ascii := "000"%char.
Definition LF : string := String "010"%char "".

(** The C string stored at the start of an array: the bytes before the first
    NUL (or the whole array when it holds none). *)
Fixpoint cstr (a : string) : string :=
  match a with
  | String c a' => if Ascii.eqb c NUL then "" else String c (cstr a')
  | EmptyString => ""
  end.

Definition strlen (a : string) : nat := String.length (cstr a).

Fixpoint stake (n : nat) (s : string) {struct s} : string :=
  match s, n with
  | String c s', S n' => String c (stake n' s')
  | _, _ => ""
  end.

Fixpoint sdrop (n : nat) (s : string) {struct s} : string :=
  match s, n with
  | String c s', S n' => sdrop n' s'
  | _, _ => s
  end.

Fixpoint zeros (n : nat) : string :=
  match n with
  | O => ""
  | S n' => String NUL (zeros n')
  end.

(** Writing the C string [t] and its terminator at the start of array [a]
    (what [%s] of sscanf or strcpy do); the bytes after the terminator keep
    their old content. *)
Definition poke (a t : string) : string :=
  t ++ String NUL (sdrop (S (String.length t)) a).

(** Storing the bytes [t] at the start of array [a], without terminator
    (what read and fread do), and storing one byte at index [i]. *)
Definition blit (a t : string) : string := t ++ sdrop (String.length t) a.

Definition set_byte (i : nat) (c : ascii) (a : string) : string :=
  stake i a ++ String c (sdrop (S i) a).

Fixpoint mem (c : ascii) (s : string) : bool :=
  match s with
  | String d s' => Ascii.eqb c d || mem c s'
  | EmptyString => false
  end.

(** [isspace] in the C locale: space, \t, \n, \v, \f, \r. *)
Definition isspace (c : ascii) : bool :=
  Ascii.eqb c " " || Ascii.eqb c "009" || Ascii.eqb c "010"
  || Ascii.eqb c "011" || Ascii.eqb c "012" || Ascii.eqb c "013".

(** snprintf(dst, cap, "%s", s): at most cap-1 bytes of [s] are stored. *)
Definition snprintf (cap : nat) (s : string) : string := stake (cap - 1) s.

End CStr.
Import CStr.

(** ** The conversions of sscanf used by the programs *)

Module Scanf.

(** White space in a format, and the leading skip of [%s]. *)
Fixpoint skip_ws (s : string) : string :=
  match s with
  | String c s' => if isspace c then skip_ws s' else s
  | EmptyString => ""
  end.

(** The body of one conversion: the longest prefix of [s] made of bytes of
    the scan set, cut after [w] bytes; the second component is the input
    left for the next directive. *)
Fixpoint scan_run (inset : ascii -> bool) (w : nat) (s : string) {struct s}
  : string * string :=
  match s, w with
  | String c s', S w' =>
      if inset c
      then let (t, r) := scan_run inset w' s' in (String c t, r)
      else ("", s)
  | _, _ => ("", s)
  end.

(** The same without a field width (plain [%s], [%[^\n]]). *)
Fixpoint scan_all (inset : ascii -> bool) (s : string) : string * string :=
  match s with
  | String c s' =>
      if inset c
      then let (t, r) := scan_all inset s' in (String c t, r)
      else ("", s)
  | EmptyString => ("", "")
  end.

Definition nonspace (c : ascii) : bool := negb (isspace c).
Definition not_newline (c : ascii) : bool := negb (Ascii.eqb c "010").

(** Result of a three-conversion sscanf: the return value and, for each
    conversion that was carried out, the string it stored. *)
Record Scanned := {
  matched : Z;
  sc_cmd : option string;
  sc_key : option string;
  sc_value : option string
}.

Definition EOF : Z := (-1)%Z.

(** sscanf(buffer, "%<wc>s %<wk>s %<wv>[^\n]", ...): [conv w] is the body of
    a conversion of width [w] ([scan_run], or [scan_all] without width).
    The input is the C string held by [buffer].  [%s] skips white space and
    fails at the end of input; [%[] does not skip, but the blank before it in
    the format does, and it fails when no byte matches. *)
Definition sscanf3
    (conv_cmd conv_key conv_val : (ascii -> bool) -> string -> string * string)
    (buffer : string) : Scanned :=
  match skip_ws (cstr buffer) with
  | EmptyString => {| matched := EOF; sc_cmd := None; sc_key := None; sc_value := None |}
  | String _ _ as s0 =>
      let (c, s1) := conv_cmd nonspace s0 in
      match skip_ws s1 with
      | EmptyString => {| matched := 1; sc_cmd := Some c; sc_key := None; sc_value := None |}
      | String _ _ as s2 =>
          let (k, s3) := conv_key nonspace s2 in
          match skip_ws s3 with
          | EmptyString => {| matched := 2; sc_cmd := Some c; sc_key := Some k; sc_value := None |}
          | String _ _ as s4 =>
              let (v, _) := conv_val not_newline s4 in
              match v with
              | EmptyString => {| matched := 2; sc_cmd := Some c; sc_key := Some k; sc_value := None |}
              | String _ _ => {| matched := 3; sc_cmd := Some c; sc_key := Some k; sc_value := Some v |}
              end
          end
      end
  end.

(** An output array after sscanf: untouched when the conversion did not
    happen. *)
Definition assign (a : string) (o : option string) : string :=
  match o with
  | Some t => poke a t
  | None => a
  end.

End Scanf.
Import Scanf.

(** ** The environment: files, sockets, signals

    The directory the server runs in is a finite map from file names to
    files.  A file carries its bytes and whether it may be opened for
    writing; the directory itself is writable, so creating a missing file
    and removing an existing one succeed.  Every call that reaches the
    operating system is recorded, in order, in the world's log.

    The one signal of the model is SIGINT.  A write on a connection the
    peer has reset makes the kernel raise SIGPIPE (the call would fail with
    EPIPE); neither program changes the disposition of SIGPIPE, so the
    signal ends the process before the write returns.  The model has no
    such outcome: a script of write outcomes stands for a run of the
    program only if it holds no failure with EPIPE. *)

Module OS.

Definition EINTR : Z := 4%Z.
Definition EPIPE : Z := 32%Z.
Definition EXIT_SUCCESS : Z := 0%Z.
Definition EXIT_FAILURE : Z := 1%Z.

Record File := { content : string; writable : bool }.

Inductive Event :=
| EvFopen (path mode : string) (ok : bool)
| EvFputs (path data : string)
| EvFread (path : string) (count : nat)
| EvFclose (path : string)
| EvRemove (path : string)
| EvRead (fd : Z)
| EvWrite (fd : Z) (data : string)
| EvClose (fd : Z)
| EvAccept (ok : bool)
| EvPerror (what : string)
| EvPrintf (text : string).

Record World := { disk : gmap string File; log : list Event }.

Definition emit (e : Event) (w : World) : World :=
  {| disk := disk w; log := log w ++ [e] |}.

Definition set_disk (d : gmap string File) (w : World) : World :=
  {| disk := d; log := log w |}.

Definition is_storage (e : Event) : bool :=
  match e with
  | EvFopen _ _ _ | EvFputs _ _ | EvFread _ _ | EvFclose _ | EvRemove _ => true
  | _ => false
  end.

(** fopen(path, "w"): fails on a file that is not writable; otherwise the
    file exists afterwards, empty.  The stream is named by its path. *)
Definition fopen_w (path : string) (w : World) : option string * World :=
  match disk w !! path with
  | Some f =>
      if writable f
      then (Some path,
            emit (EvFopen path "w" true)
                 (set_disk (<[path := {| content := ""; writable := true |}]> (disk w)) w))
      else (None, emit (EvFopen path "w" false) w)
  | None =>
      (Some path,
       emit (EvFopen path "w" true)
            (set_disk (<[path := {| content := ""; writable := true |}]> (disk w)) w))
  end.

(** fopen(path, "r"): fails when there is no such file. *)
Definition fopen_r (path : string) (w : World) : option string * World :=
  match disk w !! path with
  | Some _ => (Some path, emit (EvFopen path "r" true) w)
  | None => (None, emit (EvFopen path "r" false) w)
  end.

(** fputs(s, fp) on a stream opened by [fopen_w]: the bytes of the C string
    go to the end of the file. *)
Definition fputs (s : string) (fp : string) (w : World) : World :=
  match disk w !! fp with
  | Some f =>
      emit (EvFputs fp s)
           (set_disk (<[fp := {| content := content f ++ s; writable := writable f |}]> (disk w)) w)
  | None => emit (EvFputs fp s) w
  end.

(** fread(dst, 1, count, fp) on a stream just opened by [fopen_r]: the first
    [count] bytes of the file (fewer when the file is shorter). *)
Definition fread (count : nat) (fp : string) (w : World) : string * World :=
  match disk w !! fp with
  | Some f => (stake count (content f), emit (EvFread fp count) w)
  | None => ("", emit (EvFread fp count) w)
  end.

Definition fclose (fp : string) (w : World) : World := emit (EvFclose fp) w.

(** remove(path): the file is gone afterwards, whether or not it existed. *)
Definition remove (path : string) (w : World) : World :=
  emit (EvRemove path) (set_disk (delete path (disk w)) w).

Definition perror (what : string) (w : World) : World := emit (EvPerror what) w.
Definition printf (text : string) (w : World) : World := emit (EvPrintf text) w.
Definition close (fd : Z) (w : World) : World := emit (EvClose fd) w.

(** What the peer and the kernel do on one connected socket: the outcome of
    the single read, and the outcomes of the successive write calls.  A write
    outcome [WrBytes k] accepts [k] bytes (at most the bytes offered); once
    the list is used up, a write accepts everything it is offered. *)
Inductive ReadResult := RdFail (errno : Z) | RdBytes (data : string).
Inductive WriteResult := WrFail (errno : Z) | WrBytes (k : nat).

Record Conn := { fd : Z; incoming : ReadResult; outgoing : list WriteResult }.

(** read(fd, dst, count): the return value and the bytes stored. *)
Definition read (c : Conn) (count : nat) (w : World) : Z * string * World :=
  match incoming c with
  | RdFail _ => ((-1)%Z, "", emit (EvRead (fd c)) w)
  | RdBytes data =>
      (Z.of_nat (String.length (stake count data)), stake count data,
       emit (EvRead (fd c)) w)
  end.

(** One write(fd, p, n) call with the next scripted outcome: the return value
    and the bytes that went out. *)
Definition write (fd : Z) (r : option WriteResult) (p : string) (w : World)
  : Z * World :=
  match r with
  | Some (WrFail _) => ((-1)%Z, w)
  | Some (WrBytes k) =>
      let k' := Nat.min k (String.length p) in
      (Z.of_nat k', emit (EvWrite fd (stake k' p)) w)
  | None => (Z.of_nat (String.length p), emit (EvWrite fd p) w)
  end.

Definition errno_of (r : option WriteResult) : Z :=
  match r with
  | Some (WrFail e) => e
  | _ => 0%Z
  end.

(** The bytes a log shows as sent on a socket. *)
Fixpoint sent (fd : Z) (l : list Event) : string :=
  match l with
  | EvWrite fd' data :: l' => if Z.eqb fd fd' then data ++ sent fd l' else sent fd l'
  | _ :: l' => sent fd l'
  | [] => ""
  end.

(** The calls to accept of the server loop.  A step of the environment is
    what happens around one call: whether SIGINT is delivered while the
    process is in (or about to enter) accept, what accept returns, and
    whether SIGINT is delivered between that return and the next test of the
    loop condition. *)
Inductive AcceptResult := AccFail (errno : Z) | AccConn (c : Conn).

Record Step := { sig_in_accept : bool; accepted : AcceptResult; sig_after : bool }.

(** A process either has returned from main with a status, or is blocked in
    a system call waiting for the environment. *)
Inductive Outcome := Running (w : World) | Exited (status : Z) (w : World).

End OS.
Import OS.

(** ** src/server2.c *)

Module Server2.

Definition PORT : Z := 5000%Z.
Definition BUFFER_SIZE : nat := 1024.

Inductive Command := CMD_INVALID | CMD_SET | CMD_GET | CMD_DEL.

(** [key] is a char[100], [value] a char[BUFFER_SIZE]. *)
Record Request := { cmd : Command; key : string; value : string }.

(** The flag g_stop is the only variable of the program that outlives a
    call; it is threaded through the accept loop.  on_sigint stores 1. *)
Definition on_sigint (g_stop : bool) : bool := true.

(** The loop of clave_valida, from index i on. *)
Fixpoint clave_scan (s : string) : bool :=
  match s with
  | String c s' =>
      if Ascii.eqb c NUL then true
      else if Ascii.eqb c "/" || Ascii.eqb c "\" || Ascii.eqb c "." || Ascii.eqb c " "
           then false
           else clave_scan s'
  | EmptyString => true
  end.

(** A pointer argument is [None] when NULL. *)
Definition clave_valida (clave : option string) : bool :=
  match clave with
  | None => false
  | Some s =>
      match s with
      | String c _ => if Ascii.eqb c NUL then false else clave_scan s
      | EmptyString => false
      end
  end.

(** The loop of write_all.  [p] is what is left to send (so n is its
    length), [script] the outcomes of the coming write calls. *)
Fixpoint write_loop (fd : Z) (script : list WriteResult) (p : string)
    (w : World) {struct script} : bool * World :=
  match p with
  | EmptyString => (true, w)
  | String _ _ =>
      match script with
      | r :: script' =>
          let (wr, w1) := write fd (Some r) p w in
          if (wr <? 0)%Z then
            if (errno_of (Some r) =? EINTR)%Z then write_loop fd script' p w1
            else (false, w1)
          else write_loop fd script' (sdrop (Z.to_nat wr) p) w1
      | [] => (true, snd (write fd None p w))
      end
  end.

Definition write_all (c : Conn) (buf : string) (len : nat) (w : World)
  : Z * World :=
  let (ok, w1) := write_loop (fd c) (outgoing c) (stake len buf) w in
  (if ok then Z.of_nat len else (-1)%Z, w1).

Definition parse_cmd (cmd_str : string) : Command :=
  if String.eqb (cstr cmd_str) "SET" then CMD_SET
  else if String.eqb (cstr cmd_str) "GET" then CMD_GET
  else if String.eqb (cstr cmd_str) "DEL" then CMD_DEL
  else CMD_INVALID.

Definition is_cmd (a b : Command) : bool :=
  match a, b with
  | CMD_INVALID, CMD_INVALID | CMD_SET, CMD_SET
  | CMD_GET, CMD_GET | CMD_DEL, CMD_DEL => true
  | _, _ => false
  end.

Definition scan_request (buffer : string) : Scanned :=
  sscanf3 (fun f => scan_run f 9) (fun f => scan_run f 99)
          (fun f => scan_run f 1023) buffer.

(** parse_request: the status and the request left in *req.  The old
    content of *req is erased by the memset. *)
Definition parse_request (buffer : option string) (req : option Request)
  : Z * option Request :=
  match buffer, req with
  | Some buf, Some _ =>
      let sc := scan_request buf in
      let cmd_str := assign (zeros 10) (sc_cmd sc) in
      let k := assign (zeros 100) (sc_key sc) in
      let v := assign (zeros BUFFER_SIZE) (sc_value sc) in
      if (matched sc <? 1)%Z
      then ((-2)%Z, Some {| cmd := CMD_INVALID; key := k; value := v |})
      else
        let c := parse_cmd cmd_str in
        let r := {| cmd := c; key := k; value := v |} in
        if is_cmd c CMD_INVALID then ((-3)%Z, Some r)
        else if (is_cmd c CMD_GET || is_cmd c CMD_DEL) && (matched sc <? 2)%Z
        then ((-4)%Z, Some r)
        else if is_cmd c CMD_SET && (matched sc <? 3)%Z
        then ((-5)%Z, Some r)
        else (0%Z, Some r)
  | _, _ => ((-1)%Z, req)
  end.

(** snprintf(response, cap, ...) on the response array. *)
Definition respond (response : string) (cap : nat) (text : string) : string :=
  match cap with
  | O => response
  | S _ => poke response (snprintf cap text)
  end.

Definition MSG_CLAVE_INVALIDA : string := "ERROR: Clave invalida" ++ LF.
Definition MSG_NO_SE_PUDO_CREAR : string := "ERROR: No se pudo crear" ++ LF.
Definition MSG_OK : string := "OK" ++ LF.
Definition MSG_NOTFOUND : string := "NOTFOUND" ++ LF.
Definition MSG_COMANDO_INVALIDO : string := "ERROR: Comando invalido" ++ LF.
Definition MSG_FALTA_CLAVE : string := "ERROR: Falta clave" ++ LF.
Definition MSG_FALTA_VALOR : string := "ERROR: Falta valor" ++ LF.
Definition MSG_FORMATO_INVALIDO : string := "ERROR: Formato invalido" ++ LF.

(** The handlers return the response array and the world they leave. *)
Definition handle_set (req : Request) (response : string) (cap : nat)
    (w : World) : string * World :=
  if negb (clave_valida (Some (key req)))
  then (respond response cap MSG_CLAVE_INVALIDA, w)
  else
    match fopen_w (cstr (key req)) w with
    | (None, w1) => (respond response cap MSG_NO_SE_PUDO_CREAR, w1)
    | (Some fp, w1) =>
        let w2 := fputs (cstr (value req)) fp w1 in
        let w3 := fclose fp w2 in
        (respond response cap MSG_OK, w3)
    end.

Definition handle_get (req : Request) (response : string) (cap : nat)
    (w : World) : string * World :=
  if negb (clave_valida (Some (key req)))
  then (respond response cap MSG_CLAVE_INVALIDA, w)
  else
    match fopen_r (cstr (key req)) w with
    | (None, w1) => (respond response cap MSG_NOTFOUND, w1)
    | (Some fp, w1) =>
        let '(bytes, w2) := fread (BUFFER_SIZE - 1) fp w1 in
        let contenido := bytes ++ String NUL "" in
        let w3 := fclose fp w2 in
        (respond response cap
           ("OK" ++ LF ++ stake (BUFFER_SIZE - 5) (cstr contenido) ++ LF), w3)
    end.

Definition handle_del (req : Request) (response : string) (cap : nat)
    (w : World) : string * World :=
  if negb (clave_valida (Some (key req)))
  then (respond response cap MSG_CLAVE_INVALIDA, w)
  else
    let w1 := remove (cstr (key req)) w in
    (respond response cap MSG_OK, w1).

Definition run_request (c : Conn) (req : Request) (w : World) : World :=
  let response := zeros BUFFER_SIZE in
  let '(response, w1) :=
    match cmd req with
    | CMD_SET => handle_set req response BUFFER_SIZE w
    | CMD_GET => handle_get req response BUFFER_SIZE w
    | CMD_DEL => handle_del req response BUFFER_SIZE w
    | CMD_INVALID => (respond response BUFFER_SIZE MSG_COMANDO_INVALIDO, w)
    end in
  snd (write_all c response (strlen response) w1).

(** The local [Request req] of handle_client before parse_request fills it;
    parse_request does not read it. *)
Definition req_uninit : Request :=
  {| cmd := CMD_INVALID; key := zeros 100; value := zeros BUFFER_SIZE |}.

Definition parse_error_msg (st : Z) : string :=
  if (st =? -2)%Z || (st =? -3)%Z then MSG_COMANDO_INVALIDO
  else if (st =? -4)%Z then MSG_FALTA_CLAVE
  else if (st =? -5)%Z then MSG_FALTA_VALOR
  else MSG_FORMATO_INVALIDO.

Definition handle_client (c : Conn) (w : World) : World :=
  let buffer := zeros BUFFER_SIZE in
  let '(bytes, data, w1) := read c (BUFFER_SIZE - 1) w in
  if (bytes <=? 0)%Z then close (fd c) (perror "read" w1)
  else
    let buffer := poke buffer data in
    match parse_request (Some buffer) (Some req_uninit) with
    | (st, Some req) =>
        if negb (st =? 0)%Z then
          let msg := parse_error_msg st in
          close (fd c) (snd (write_all c msg (strlen msg) w1))
        else close (fd c) (run_request c req w1)
    | (_, None) => close (fd c) w1
    end.

(** The results of the calls that set the listening socket up. *)
Record Startup := {
  socket_r : Z; setsockopt_r : Z; bind_r : Z; listen_r : Z
}.

Definition shutdown (server_fd : Z) (w : World) : Outcome :=
  Exited 0%Z (printf ("Cerrando servidor ordenadamente." ++ LF) (close server_fd w)).

(** The accept loop of main, against the steps of the environment.  When the
    steps are used up the process is blocked in accept. *)
Fixpoint serve (server_fd : Z) (steps : list Step) (g_stop : bool) (w : World)
    {struct steps} : Outcome :=
  if g_stop then shutdown server_fd w
  else
    match steps with
    | [] => Running w
    | st :: steps' =>
        let g1 := if sig_in_accept st then on_sigint g_stop else g_stop in
        match accepted st with
        | AccFail errno =>
            let w1 := emit (EvAccept false) w in
            if (errno =? EINTR)%Z && g1 then shutdown server_fd w1
            else
              let w2 := perror "accept" w1 in
              serve server_fd steps' (if sig_after st then on_sigint g1 else g1) w2
        | AccConn c =>
            let w2 := handle_client c (emit (EvAccept true) w) in
            serve server_fd steps' (if sig_after st then on_sigint g1 else g1) w2
        end
    end.

Definition main (s : Startup) (steps : list Step) (w : World) : Outcome :=
  let server_fd := socket_r s in
  if (server_fd <? 0)%Z then Exited EXIT_FAILURE (perror "socket" w)
  else if (setsockopt_r s <? 0)%Z
  then Exited EXIT_FAILURE (close server_fd (perror "setsockopt" w))
  else if (bind_r s <? 0)%Z
  then Exited EXIT_FAILURE (close server_fd (perror "bind" w))
  else if (listen_r s <? 0)%Z
  then Exited EXIT_FAILURE (close server_fd (perror "listen" w))
  else
    serve server_fd steps false
      (printf ("Servidor clave-valor escuchando en el puerto 5000..." ++ LF) w).

End Server2.

(** ** src/servidor.c *)

Module Servidor.

Definition BUFFER_SIZE : nat := 1024.

Fixpoint clave_loop (s : string) : Z :=
  match s with
  | String c s' =>
      if Ascii.eqb c NUL then 1%Z
      else if Ascii.eqb c "/" || Ascii.eqb c "\" || Ascii.eqb c "." || Ascii.eqb c " "
           then 0%Z
           else clave_loop s'
  | EmptyString => 1%Z
  end.

Definition clave_valida (clave : string) : Z :=
  if Nat.eqb (strlen clave) 0 then 0%Z else clave_loop clave.

(** The local arrays of handle_command that are declared without an
    initialiser hold whatever the stack held. *)
Record Locals := {
  junk_cmd : string;        (* char cmd[10] *)
  junk_key : string;        (* char key[100] *)
  junk_value : string;      (* char value[BUFFER_SIZE] *)
  junk_contenido : string   (* char contenido[BUFFER_SIZE] *)
}.

(** How a call ends: it returns, it ends the process through exit, or it
    has written past the end of an array. *)
Inductive Ctl :=
| Returned (w : World)
| Exit (status : Z) (w : World)
| Undefined.

(** The two messages with an accented letter, as the bytes of the source
    file: the letter is a-acute, in UTF-8 the two bytes 195 and 161. *)
Definition MSG_CLAVE_INVALIDA : string :=
  "ERROR: Clave inv" ++ String (ascii_of_nat 195) (String (ascii_of_nat 161) "")
  ++ "lida" ++ LF.
Definition MSG_COMANDO_INVALIDO : string :=
  "ERROR: Comando inv" ++ String (ascii_of_nat 195) (String (ascii_of_nat 161) "")
  ++ "lido" ++ LF.
Definition MSG_OK : string := "OK" ++ LF.
Definition MSG_NOTFOUND : string := "NOTFOUND" ++ LF.

Definition fits (size : nat) (o : option string) : bool :=
  match o with
  | Some t => Nat.ltb (String.length t) size
  | None => true
  end.

(** The final write(client_fd, response, strlen(response)); close. *)
Definition reply (c : Conn) (response : string) (w : World) : World :=
  close (fd c) (snd (write (fd c) (head (outgoing c)) (cstr response) w)).

Definition handle_command (c : Conn) (junk : Locals) (w : World) : Ctl :=
  let buffer := zeros BUFFER_SIZE in
  let response := zeros BUFFER_SIZE in
  let '(bytes_read, data, w1) := read c (BUFFER_SIZE - 1) w in
  if (bytes_read <=? 0)%Z
  then Exit EXIT_FAILURE (close (fd c) (perror "Error al leer del cliente" w1))
  else
    let buffer := blit buffer data in
    let sc := sscanf3 scan_all scan_all scan_all buffer in
    if negb (fits 10 (sc_cmd sc) && fits 100 (sc_key sc)
             && fits BUFFER_SIZE (sc_value sc))
    then Undefined
    else
      let cmd := assign (junk_cmd junk) (sc_cmd sc) in
      let key := assign (junk_key junk) (sc_key sc) in
      let value := assign (junk_value junk) (sc_value sc) in
      if (clave_valida key =? 0)%Z
      then Returned (reply c (poke response (snprintf BUFFER_SIZE MSG_CLAVE_INVALIDA)) w1)
      else if String.eqb (cstr cmd) "SET" && (matched sc =? 3)%Z then
        match fopen_w (cstr key) w1 with
        | (None, w2) => Exit EXIT_FAILURE (perror "No se pudo crear el archivo" w2)
        | (Some fp, w2) =>
            let w3 := fclose fp (fputs (cstr value) fp w2) in
            Returned (reply c (poke response (snprintf BUFFER_SIZE MSG_OK)) w3)
        end
      else if String.eqb (cstr cmd) "GET" && (2 <=? matched sc)%Z then
        match fopen_r (cstr key) w1 with
        | (None, w2) =>
            Returned (reply c (poke response (snprintf BUFFER_SIZE MSG_NOTFOUND)) w2)
        | (Some fp, w2) =>
            let '(bytes, w3) := fread (BUFFER_SIZE - 1) fp w2 in
            let contenido :=
              set_byte (BUFFER_SIZE - 1) NUL (blit (junk_contenido junk) bytes) in
            let w4 := fclose fp w3 in
            Returned (reply c (poke response
                                 (snprintf BUFFER_SIZE
                                    ("OK" ++ LF ++ cstr contenido ++ LF))) w4)
        end
      else if String.eqb (cstr cmd) "DEL" && (2 <=? matched sc)%Z then
        let w2 := remove (cstr key) w1 in
        Returned (reply c (poke response (snprintf BUFFER_SIZE MSG_OK)) w2)
      else
        Returned (reply c (poke response (snprintf BUFFER_SIZE MSG_COMANDO_INVALIDO)) w1).

(** The accept loop of main: a process outcome, or none when an array was
    overrun.  No signal handler is installed. *)
Fixpoint serve (junk : Locals) (accepts : list AcceptResult) (w : World)
  : option Outcome :=
  match accepts with
  | [] => Some (Running w)
  | AccFail _ :: accepts' =>
      serve junk accepts' (perror "Error en accept" (emit (EvAccept false) w))
  | AccConn c :: accepts' =>
      match handle_command c junk (emit (EvAccept true) w) with
      | Returned w1 => serve junk accepts' w1
      | Exit status w1 => Some (Exited status w1)
      | Undefined => None
      end
  end.

(** The results of the calls that set the listening socket up. *)
Record Startup := {
  socket_r : Z; setsockopt_r : Z; bind_r : Z; listen_r : Z
}.

(** main: each failed call of the start-up ends the process through
    exit(EXIT_FAILURE); the loop has no way out, so the close and the
    return after it are never reached. *)
Definition main (s : Startup) (junk : Locals) (accepts : list AcceptResult)
    (w : World) : option Outcome :=
  let server_fd := socket_r s in
  if (server_fd <? 0)%Z
  then Some (Exited EXIT_FAILURE (perror "No se pudo crear el socket" w))
  else if (setsockopt_r s <? 0)%Z
  then Some (Exited EXIT_FAILURE (close server_fd (perror "Error en setsockopt" w)))
  else if (bind_r s <? 0)%Z
  then Some (Exited EXIT_FAILURE (close server_fd (perror "Error en bind" w)))
  else if (listen_r s <? 0)%Z
  then Some (Exited EXIT_FAILURE (close server_fd (perror "Error en listen" w)))
  else
    serve junk accepts
      (printf ("Servidor clave-valor escuchando en el puerto 5000..." ++ LF) w).

End Servidor.

(** ** Notions the properties are stated with

    None of these is part of the programs.  [tokens], [ParseError],
    [value_captured] and [classify] follow the words of the specification
    of the parser, to be compared with parse_request; the others name what
    is observed of a run. *)

Module Spec.

(** *** Strings *)

(** Every byte of a string satisfies a test. *)
Fixpoint sall (f : ascii -> bool) (s : string) : bool :=
  match s with
  | String c s' => f c && sall f s'
  | EmptyString => true
  end.

Definition not_nul (c : ascii) : bool := negb (Ascii.eqb c NUL).

(** [n] copies of a byte. *)
Fixpoint fill (c : ascii) (n : nat) : string :=
  match n with
  | O => ""
  | S n' => String c (fill c n')
  end.

(** A key that contains one of the four bytes the validator refuses. *)
Definition forbidden (k : string) : bool :=
  mem "/" k || mem "\" k || mem "." k || mem " " k.

(** *** The parser, in the words of the specification *)

(** Splitting on white space: the maximal runs of bytes that are not white
    space, in order. *)
Fixpoint tokens (s : string) : list string :=
  match s with
  | EmptyString => []
  | String c s' =>
      if isspace c then tokens s'
      else
        match s' with
        | EmptyString => [String c ""]
        | String d _ =>
            if isspace d then String c "" :: tokens s'
            else
              match tokens s' with
              | t :: ts => String c t :: ts
              | [] => [String c ""]
              end
        end
  end.

(** The failures of parsing that the specification names, and the status
    code of parse_request that stands for each (0 for success). *)
Inductive ParseError := Empty | UnknownCommand | MissingKey | MissingValue.

Definition status_of (o : option ParseError) : Z :=
  match o with
  | Some Empty => (-2)%Z
  | Some UnknownCommand => (-3)%Z
  | Some MissingKey => (-4)%Z
  | Some MissingValue => (-5)%Z
  | None => 0%Z
  end.

Definition is_command (t : string) : bool :=
  String.eqb t "SET" || String.eqb t "GET" || String.eqb t "DEL".

Definition command_of (t : string) : Server2.Command :=
  if String.eqb t "SET" then Server2.CMD_SET
  else if String.eqb t "GET" then Server2.CMD_GET
  else if String.eqb t "DEL" then Server2.CMD_DEL
  else Server2.CMD_INVALID.

(** Given the tokens after the command: the value is the rest of the line
    after the key token, so a value is captured when a token follows the
    key token. *)
Definition value_captured (ts : list string) : bool :=
  match ts with
  | _ :: _ :: _ => true
  | _ => false
  end.

(** The classification of an input, in the order the specification gives:
    no token; first token not exactly SET, GET or DEL; GET or DEL without a
    key token; SET without a captured value; success. *)
Definition classify (buffer : string) : option ParseError :=
  match tokens (cstr buffer) with
  | [] => Some Empty
  | t :: ts =>
      if negb (is_command t) then Some UnknownCommand
      else if (String.eqb t "GET" || String.eqb t "DEL")
              && match ts with [] => true | _ => false end
      then Some MissingKey
      else if String.eqb t "SET" && negb (value_captured ts)
      then Some MissingValue
      else None
  end.

(** *** Observations on a run *)

(** An event that is a write on a given socket. *)
Definition is_write_on (fd : Z) (e : Event) : Prop := exists d, e = EvWrite fd d.

Definition is_accept (e : Event) : bool :=
  match e with
  | EvAccept _ => true
  | _ => false
  end.

(** The number of returns from accept a log shows. *)
Definition accepts (l : list Event) : nat := List.length (List.filter is_accept l).

(** [w'] is [w] after some calls, none of them accept. *)
Definition grows (w w' : World) : Prop :=
  exists l, log w' = (log w ++ l)%list /\ List.filter is_accept l = [].

(** A step of the environment during which SIGINT is delivered. *)
Definition has_sig (st : Step) : bool := sig_in_accept st || sig_after st.

(** A write outcome other than the failure that comes with SIGPIPE. *)
Definition no_sigpipe (r : WriteResult) : bool :=
  match r with
  | WrFail errno => negb (errno =? EPIPE)%Z
  | WrBytes _ => true
  end.

(** A step of the environment in which no write of the connection accepted,
    if any, raises SIGPIPE. *)
Definition peer_listens (st : Step) : bool :=
  match accepted st with
  | AccConn c => forallb no_sigpipe (outgoing c)
  | AccFail _ => true
  end.

(** A failure of one of the calls that set the listening socket up. *)
Definition startup_failed (s : Server2.Startup) : bool :=
  (Server2.socket_r s <? 0)%Z || (Server2.setsockopt_r s <? 0)%Z
  || (Server2.bind_r s <? 0)%Z || (Server2.listen_r s <? 0)%Z.

(** A stack that happens to hold zero bytes, for running handle_command. *)
Definition zero_junk : Servidor.Locals :=
  {| Servidor.junk_cmd := zeros 10; Servidor.junk_key := zeros 100;
     Servidor.junk_value := zeros Servidor.BUFFER_SIZE;
     Servidor.junk_contenido := zeros Servidor.BUFFER_SIZE |}.

(** An empty directory and an empty log. *)
Definition blank : World := {| disk := ∅; log := [] |}.

(** A connection that delivers [data] to the read and takes every write
    whole. *)
Definition client (fd : Z) (data : string) : Conn :=
  {| fd := fd; incoming := RdBytes data; outgoing := [] |}.

End Spec.
Import Spec.

(** ** Further notions: what a connection and the loop may leave in the log *)

Module Observe.

(** A name the validator accepts: not empty, none of the four bytes. *)
Definition valid_name (p : string) : bool :=
  negb (String.eqb p "") && negb (forbidden p).

(** What may happen between the read and the close of a connection on
    socket [fd]: storage calls on a valid name, writes on [fd], perror. *)
Definition conn_event (fd : Z) (e : Event) : bool :=
  match e with
  | EvFopen p _ _ | EvFputs p _ | EvFread p _ | EvFclose p | EvRemove p =>
      valid_name p
  | EvWrite fd' _ => Z.eqb fd fd'
  | EvPerror _ => true
  | _ => false
  end.

(** Storage calls on the file [p] only. *)
Definition on_file (p : string) (e : Event) : bool :=
  match e with
  | EvFopen q _ _ | EvFputs q _ | EvFread q _ | EvFclose q | EvRemove q =>
      String.eqb p q
  | _ => false
  end.

(** [w'] is [w] after some calls, all of them satisfying [P]. *)
Definition extends (P : Event -> bool) (w w' : World) : Prop :=
  exists l, log w' = (log w ++ l)%list /\ forallb P l = true.

(** A text whose last byte is a newline. *)
Fixpoint ends_lf (s : string) : bool :=
  match s with
  | EmptyString => false
  | String c EmptyString => Ascii.eqb c "010"
  | String _ s' => ends_lf s'
  end.

(** The log of a run of the accept loop over steps without SIGINT: one
    segment per step, in order; a failed accept is reported, an accepted
    connection is read, served and closed before the next accept. *)
Inductive served : list Step -> list Event -> Prop :=
| served_nil : served [] []
| served_fail st steps e l :
    accepted st = AccFail e -> served steps l ->
    served (st :: steps) (EvAccept false :: EvPerror "accept" :: l)
| served_conn st steps c body l :
    accepted st = AccConn c ->
    forallb (conn_event (fd c)) body = true ->
    served steps l ->
    served (st :: steps)
           (EvAccept true :: EvRead (fd c) :: body ++ EvClose (fd c) :: l).

End Observe.
Import Observe.

(** * Properties *)

(** ** Strings and arrays *)

Section StringFacts.

Implicit Types (s t a : string) (c : ascii) (n : nat).

Lemma length_app s t : String.length (s ++ t) = String.length s + String.length t.
Proof. induction s as [|c s IH]; simpl; [reflexivity | now rewrite IH]. Qed.

Lemma length_stake_le n s : String.length (stake n s) <= n.
Proof.
  revert n; induction s as [|c s IH]; intros [|n]; simpl; try lia.
  specialize (IH n); lia.
Qed.

Lemma length_stake n s : String.length (stake n s) = Nat.min n (String.length s).
Proof.
  revert n; induction s as [|c s IH]; intros [|n]; simpl; try reflexivity.
  now rewrite IH.
Qed.

Lemma stake_all n s : String.length s <= n -> stake n s = s.
Proof.
  revert n; induction s as [|c s IH]; intros [|n] H; simpl in *;
    try reflexivity; try lia.
  rewrite IH; [reflexivity | lia].
Qed.

Lemma stake_stake n m s : n <= m -> stake n (stake m s) = stake n s.
Proof.
  revert n m; induction s as [|c s IH]; intros [|n] [|m] H; simpl;
    try reflexivity; try lia.
  rewrite IH; [reflexivity | lia].
Qed.

Lemma stake_sdrop n s : stake n s ++ sdrop n s = s.
Proof.
  revert n; induction s as [|c s IH]; intros [|n]; simpl; try reflexivity.
  now rewrite IH.
Qed.

Lemma stake_add n m s : stake n s ++ stake m (sdrop n s) = stake (n + m) s.
Proof.
  revert n; induction s as [|c s IH]; intros [|n]; simpl; try reflexivity.
  now rewrite IH.
Qed.

Lemma length_sdrop n s : String.length (sdrop n s) = String.length s - n.
Proof.
  revert n; induction s as [|c s IH]; intros [|n]; simpl; try reflexivity.
  apply IH.
Qed.

Lemma sdrop_all n s : String.length s <= n -> sdrop n s = "".
Proof.
  revert n; induction s as [|c s IH]; intros [|n] H; simpl in *;
    try reflexivity; try lia.
  apply IH; lia.
Qed.

Lemma stake_app_exact s t : stake (String.length s) (s ++ t) = s.
Proof. induction s as [|c s IH]; simpl; [now destruct t | now rewrite IH]. Qed.

Lemma app_assoc_s s t a : (s ++ t) ++ a = s ++ (t ++ a).
Proof. induction s as [|c s IH]; simpl; [reflexivity | now rewrite IH]. Qed.

Lemma app_empty_r s : s ++ "" = s.
Proof. induction s as [|c s IH]; simpl; [reflexivity | now rewrite IH]. Qed.

Lemma length_zeros n : String.length (zeros n) = n.
Proof. induction n; simpl; congruence. Qed.

Lemma mem_app c s t : mem c (s ++ t) = mem c s || mem c t.
Proof.
  induction s as [|d s IH]; simpl; [reflexivity |].
  now rewrite IH, orb_assoc.
Qed.

Lemma mem_stake c n s : mem c s = false -> mem c (stake n s) = false.
Proof.
  revert n; induction s as [|d s IH]; intros [|n] H; simpl in *; try reflexivity.
  apply orb_false_iff in H as [H1 H2]. now rewrite H1, IH.
Qed.

(** The C string of an array never holds a NUL; an array without NUL is its
    own C string. *)
Lemma cstr_nul_free a : mem NUL (cstr a) = false.
Proof.
  induction a as [|c a IH]; simpl; [reflexivity |].
  destruct (Ascii.eqb c NUL) eqn:E; simpl; [reflexivity |].
  rewrite IH, orb_false_r. now rewrite Ascii.eqb_sym.
Qed.

Lemma cstr_id s : mem NUL s = false -> cstr s = s.
Proof.
  induction s as [|c s IH]; simpl; intros H; [reflexivity |].
  apply orb_false_iff in H as [H1 H2].
  rewrite Ascii.eqb_sym, H1. now rewrite IH.
Qed.

Lemma cstr_idem a : cstr (cstr a) = cstr a.
Proof. apply cstr_id, cstr_nul_free. Qed.

Lemma cstr_app_nul s t : mem NUL s = false -> cstr (s ++ String NUL t) = s.
Proof.
  induction s as [|c s IH]; simpl; intros H; [reflexivity |].
  apply orb_false_iff in H as [H1 H2].
  rewrite Ascii.eqb_sym, H1. now rewrite IH.
Qed.

Lemma cstr_app_nul_gen s t : cstr (s ++ String NUL t) = cstr s.
Proof.
  induction s as [|c s IH]; simpl; [reflexivity |].
  destruct (Ascii.eqb c NUL); [reflexivity | now rewrite IH].
Qed.

Lemma cstr_poke a t : mem NUL t = false -> cstr (poke a t) = t.
Proof. intros H. unfold poke. now apply cstr_app_nul. Qed.

Lemma length_poke a t :
  String.length t < String.length a -> String.length (poke a t) = String.length a.
Proof.
  intros H. unfold poke. rewrite length_app. simpl. rewrite length_sdrop. lia.
Qed.

Lemma get_app_nul t a : String.get (String.length t) (t ++ String NUL a) = Some NUL.
Proof. induction t as [|c t IH]; simpl; [reflexivity | exact IH]. Qed.

Lemma strlen_le a : strlen a <= String.length a.
Proof.
  unfold strlen. induction a as [|c a IH]; simpl; [lia |].
  destruct (Ascii.eqb c NUL); simpl; lia.
Qed.

End StringFacts.

(** ** Sockets: what a write loop leaves in the world *)

Section WriteFacts.

Lemma sent_app fd l1 l2 : sent fd (l1 ++ l2)%list = sent fd l1 ++ sent fd l2.
Proof.
  induction l1 as [|e l1 IH]; simpl; [reflexivity |].
  destruct e; try exact IH.
  destruct (Z.eqb fd fd0); [| exact IH].
  now rewrite IH, app_assoc_s.
Qed.

Lemma sent_one fd data : sent fd [EvWrite fd data] = data.
Proof. simpl. rewrite Z.eqb_refl. apply app_empty_r. Qed.

(** Invariant of the loop of write_all: the disk is not touched, the log
    grows by write events only, and the bytes sent so far are a prefix of
    the bytes offered; all of them when the loop reports success. *)
Lemma write_loop_spec fd script :
  forall p w,
    let r := Server2.write_loop fd script p w in
    disk (snd r) = disk w /\
    exists l,
      log (snd r) = (log w ++ l)%list /\
      Forall (is_write_on fd) l /\
      (exists n, sent fd l = stake n p) /\
      (fst r = true -> sent fd l = p).
Proof.
  induction script as [|o script IH]; intros p w; destruct p as [|c p].
  - simpl. split; [reflexivity |]. exists []. rewrite app_nil_r.
    split; [reflexivity | split; [constructor | split; [now exists 0 | reflexivity]]].
  - simpl. split; [reflexivity |]. exists [EvWrite fd (String c p)].
    split; [reflexivity | split; [repeat constructor; now eexists | split]].
    + exists (S (String.length p)). rewrite sent_one. simpl.
      f_equal. symmetry. apply stake_all. lia.
    + intros _. apply sent_one.
  - simpl. split; [reflexivity |]. exists []. rewrite app_nil_r.
    split; [reflexivity | split; [constructor | split; [now exists 0 | reflexivity]]].
  - destruct o as [e | k].
    + cbn [Server2.write_loop write errno_of]. change (-1 <? 0)%Z with true. cbv iota.
      destruct (e =? EINTR)%Z.
      * apply IH.
      * simpl. split; [reflexivity |]. exists []. rewrite app_nil_r.
        split; [reflexivity | split; [constructor | split; [now exists 0 | discriminate]]].
    + cbn [Server2.write_loop write].
      set (k' := Nat.min k (String.length (String c p))).
      assert (Hneg : (Z.of_nat k' <? 0)%Z = false) by (apply Z.ltb_ge; lia).
      rewrite Hneg, Nat2Z.id.
      specialize (IH (sdrop k' (String c p)) (emit (EvWrite fd (stake k' (String c p))) w)).
      cbv zeta in IH. destruct IH as [Hd (l & Hl & Hs & (n & Hn) & Hok)].
      split; [exact Hd |].
      exists (EvWrite fd (stake k' (String c p)) :: l).
      split; [| split; [| split]].
      * rewrite Hl. simpl. now rewrite <- List.app_assoc.
      * constructor; [now eexists | exact Hs].
      * exists (k' + n).
        change (EvWrite fd (stake k' (String c p)) :: l)
          with ([EvWrite fd (stake k' (String c p))] ++ l)%list.
        rewrite sent_app, sent_one, Hn.
        apply stake_add.
      * intros H.
        change (EvWrite fd (stake k' (String c p)) :: l)
          with ([EvWrite fd (stake k' (String c p))] ++ l)%list.
        rewrite sent_app, sent_one, (Hok H). apply stake_sdrop.
Qed.

Lemma writes_not_storage fd l :
  Forall (is_write_on fd) l -> List.filter is_storage l = [].
Proof.
  induction 1 as [|e l [d ->] _ IH]; [reflexivity | exact IH].
Qed.


Lemma write_all_disk c buf len w : disk (snd (Server2.write_all c buf len w)) = disk w.
Proof.
  unfold Server2.write_all.
  pose proof (write_loop_spec (fd c) (outgoing c) (stake len buf) w) as H.
  cbv zeta in H. destruct (Server2.write_loop _ _ _ _) as [ok w1]. apply H.
Qed.

Lemma write_all_storage c buf len w :
  List.filter is_storage (log (snd (Server2.write_all c buf len w)))
  = List.filter is_storage (log w).
Proof.
  unfold Server2.write_all.
  pose proof (write_loop_spec (fd c) (outgoing c) (stake len buf) w) as H.
  cbv zeta in H. destruct (Server2.write_loop _ _ _ _) as [ok w1].
  destruct H as [_ (l & Hl & Hs & _)]. simpl in *.
  now rewrite Hl, List.filter_app, (writes_not_storage _ _ Hs), app_nil_r.
Qed.

End WriteFacts.

(** ** The key validator *)

Section ValidatorFacts.

Import Server2.

Lemma clave_scan_spec a : clave_scan a = negb (forbidden (cstr a)).
Proof.
  unfold forbidden. induction a as [|c a IH]; simpl; [reflexivity |].
  destruct (Ascii.eqb c NUL) eqn:E0; [reflexivity |].
  simpl. rewrite !(Ascii.eqb_sym _ c).
  destruct (Ascii.eqb c "/"); [reflexivity |].
  destruct (Ascii.eqb c "\"); [simpl; now rewrite orb_true_r |].
  destruct (Ascii.eqb c "."); [simpl; now rewrite !orb_true_r |].
  destruct (Ascii.eqb c " "); [simpl; now rewrite !orb_true_r |].
  simpl. exact IH.
Qed.

Lemma clave_valida_spec a :
  clave_valida (Some a) = negb (String.eqb (cstr a) "") && negb (forbidden (cstr a)).
Proof.
  unfold clave_valida. destruct a as [|c a]; [reflexivity |].
  rewrite <- clave_scan_spec. simpl cstr.
  destruct (Ascii.eqb c NUL); reflexivity.
Qed.

Lemma clave_valida_false a :
  cstr a = "" \/ mem "/" (cstr a) = true \/ mem "\" (cstr a) = true
  \/ mem "." (cstr a) = true \/ mem " " (cstr a) = true ->
  clave_valida (Some a) = false.
Proof.
  intros H. rewrite clave_valida_spec. unfold forbidden.
  destruct H as [H | [H | [H | [H | H]]]]; rewrite H;
    rewrite ?orb_true_r; simpl; rewrite ?andb_false_r; reflexivity.
Qed.

Lemma clave_valida_true a :
  clave_valida (Some a) = true ->
  cstr a <> "" /\ forbidden (cstr a) = false.
Proof.
  rewrite clave_valida_spec. intros H. apply andb_true_iff in H as [H1 H2].
  apply negb_true_iff in H1, H2. split; [| exact H2].
  now apply String.eqb_neq.
Qed.

End ValidatorFacts.

(** ** Response texts *)

Section ResponseFacts.

Import Server2.

Lemma respond_cstr response cap text :
  String.length text < cap -> mem NUL text = false ->
  cstr (respond response cap text) = text.
Proof.
  intros Hlen Hnul. unfold respond, snprintf.
  destruct cap as [|cap]; [lia |].
  rewrite stake_all by lia. now apply cstr_poke.
Qed.

Lemma respond_strlen response cap text :
  String.length text < cap -> mem NUL text = false ->
  stake (strlen (respond response cap text)) (respond response cap text) = text.
Proof.
  intros Hlen Hnul. unfold strlen. rewrite respond_cstr by assumption.
  unfold respond, snprintf. destruct cap as [|cap]; [lia |].
  rewrite (stake_all (S cap - 1) text) by lia. unfold poke. apply stake_app_exact.
Qed.

End ResponseFacts.

(** ** Invalid keys (server2.c) *)

Section InvalidKey.

Import Server2.

Lemma msg_clave_invalida_ok :
  String.length MSG_CLAVE_INVALIDA < BUFFER_SIZE /\ mem NUL MSG_CLAVE_INVALIDA = false.
Proof. split; [vm_compute; lia | reflexivity]. Qed.

Lemma write_all_cooperative c text w :
  outgoing c = [] -> text <> "" ->
  snd (write_all c text (String.length text) w) = emit (EvWrite (fd c) text) w.
Proof.
  intros Hout Hne. unfold write_all. rewrite Hout, stake_all by lia.
  destruct text as [|a text]; [congruence | reflexivity].
Qed.

(** C1.  A key (the C string of the request's key array) that is empty or
    holds '/', '\', '.' or a space makes each of handle_set, handle_get and
    handle_del answer "ERROR: Clave invalida\n" and return the world as it
    was: no file is opened, written, read or removed.  Dispatched through
    run_request with any of the three commands, the only effect is the
    write of that answer to the client. *)
Theorem invalid_key_never_reaches_storage :
  forall (req : Request) (response : string) (c : Conn) (w : World),
    cstr (key req) = "" \/ mem "/" (cstr (key req)) = true
    \/ mem "\" (cstr (key req)) = true \/ mem "." (cstr (key req)) = true
    \/ mem " " (cstr (key req)) = true ->
    handle_set req response BUFFER_SIZE w
      = (respond response BUFFER_SIZE MSG_CLAVE_INVALIDA, w) /\
    handle_get req response BUFFER_SIZE w
      = (respond response BUFFER_SIZE MSG_CLAVE_INVALIDA, w) /\
    handle_del req response BUFFER_SIZE w
      = (respond response BUFFER_SIZE MSG_CLAVE_INVALIDA, w) /\
    cstr (respond response BUFFER_SIZE MSG_CLAVE_INVALIDA) = MSG_CLAVE_INVALIDA /\
    (cmd req <> CMD_INVALID ->
     disk (run_request c req w) = disk w /\
     List.filter is_storage (log (run_request c req w))
       = List.filter is_storage (log w) /\
     (outgoing c = [] ->
      log (run_request c req w) = (log w ++ [EvWrite (fd c) MSG_CLAVE_INVALIDA])%list)).
Proof.
  intros req response c w Hbad.
  pose proof (clave_valida_false _ Hbad) as Hv.
  destruct msg_clave_invalida_ok as [Hlen Hnul].
  assert (Hs : handle_set req response BUFFER_SIZE w
               = (respond response BUFFER_SIZE MSG_CLAVE_INVALIDA, w))
    by (unfold handle_set; now rewrite Hv).
  assert (Hg : handle_get req response BUFFER_SIZE w
               = (respond response BUFFER_SIZE MSG_CLAVE_INVALIDA, w))
    by (unfold handle_get; now rewrite Hv).
  assert (Hd : handle_del req response BUFFER_SIZE w
               = (respond response BUFFER_SIZE MSG_CLAVE_INVALIDA, w))
    by (unfold handle_del; now rewrite Hv).
  repeat (split; [assumption |]).
  split; [now apply respond_cstr |].
  intros Hcmd.
  assert (Hrun : run_request c req w
                 = snd (write_all c MSG_CLAVE_INVALIDA
                          (String.length MSG_CLAVE_INVALIDA) w)).
  { unfold run_request, handle_set, handle_get, handle_del.
    rewrite Hv. simpl negb. cbv iota.
    set (r := respond (zeros BUFFER_SIZE) BUFFER_SIZE MSG_CLAVE_INVALIDA).
    assert (Hr : stake (strlen r) r = MSG_CLAVE_INVALIDA)
      by (now apply respond_strlen).
    assert (Hl : strlen r = String.length MSG_CLAVE_INVALIDA)
      by (unfold strlen, r; now rewrite respond_cstr).
    destruct (cmd req); try congruence;
      unfold write_all; rewrite Hr, Hl, stake_all by lia; reflexivity. }
  rewrite Hrun. split; [apply write_all_disk |]. split; [apply write_all_storage |].
  intros Hout. rewrite write_all_cooperative; [reflexivity | assumption | discriminate].
Qed.

Lemma invalid_key_never_reaches_storage_witness :
  let req := {| cmd := CMD_SET; key := poke (zeros 100) "../etc/passwd";
                value := poke (zeros BUFFER_SIZE) "x" |} in
  let w := blank in
  handle_set req (zeros BUFFER_SIZE) BUFFER_SIZE w
  = (respond (zeros BUFFER_SIZE) BUFFER_SIZE MSG_CLAVE_INVALIDA, w).
Proof.
  intros req w.
  apply (invalid_key_never_reaches_storage req (zeros BUFFER_SIZE)
           {| fd := 4%Z; incoming := RdBytes ""; outgoing := [] |} w).
  right; left. reflexivity.
Defined.

End InvalidKey.

(** ** Storage through the handlers (server2.c) *)

Section Storage.

Import Server2.

Lemma clave_valida_cstr a b :
  cstr a = cstr b -> clave_valida (Some a) = clave_valida (Some b).
Proof. intros H. now rewrite !clave_valida_spec, H. Qed.

(** What GET formats for a file whose bytes are [data]. *)
Lemma get_text_ok data :
  let text := "OK" ++ LF ++ stake (BUFFER_SIZE - 5) (cstr (stake (BUFFER_SIZE - 1) data ++ String NUL "")) ++ LF in
  String.length text < BUFFER_SIZE /\ mem NUL text = false.
Proof.
  intros text. subst text. split.
  - rewrite !length_app.
    pose proof (length_stake_le (BUFFER_SIZE - 5)
                  (cstr (stake (BUFFER_SIZE - 1) data ++ String NUL ""))) as H.
    change (String.length "OK") with 2. change (String.length LF) with 1.
    unfold BUFFER_SIZE in *. lia.
  - rewrite !mem_app. rewrite mem_stake by apply cstr_nul_free. reflexivity.
Qed.

Lemma handle_set_stores (rs : Request) (resp : string) (w : World) :
  clave_valida (Some (key rs)) = true ->
  (forall f, disk w !! cstr (key rs) = Some f -> writable f = true) ->
  exists w1,
    handle_set rs resp BUFFER_SIZE w = (respond resp BUFFER_SIZE MSG_OK, w1) /\
    disk w1 !! cstr (key rs)
      = Some {| content := cstr (value rs); writable := true |}.
Proof.
  intros Hv Hw. unfold handle_set. rewrite Hv. simpl negb. cbv iota.
  assert (Hopen : fopen_w (cstr (key rs)) w
                  = (Some (cstr (key rs)),
                     emit (EvFopen (cstr (key rs)) "w" true)
                       (set_disk (<[cstr (key rs) := {| content := ""; writable := true |}]> (disk w)) w))).
  { unfold fopen_w. destruct (disk w !! cstr (key rs)) as [f|] eqn:E; [| reflexivity].
    now rewrite (Hw f eq_refl). }
  rewrite Hopen. eexists. split; [reflexivity |].
  unfold fclose, fputs. simpl. rewrite lookup_insert_eq. simpl.
  now rewrite lookup_insert_eq.
Qed.

Lemma handle_get_reads (rg : Request) (resp : string) (w : World) (f : File) :
  clave_valida (Some (key rg)) = true ->
  disk w !! cstr (key rg) = Some f ->
  cstr (fst (handle_get rg resp BUFFER_SIZE w))
  = "OK" ++ LF ++ stake (BUFFER_SIZE - 5) (cstr (stake (BUFFER_SIZE - 1) (content f) ++ String NUL "")) ++ LF.
Proof.
  intros Hv Hf. unfold handle_get. rewrite Hv. simpl negb. cbv iota.
  unfold fopen_r. rewrite Hf. unfold fread. cbn [disk emit]. rewrite Hf.
  cbn [fst]. apply respond_cstr; apply get_text_ok.
Qed.

Lemma handle_get_absent (rg : Request) (resp : string) (w : World) :
  clave_valida (Some (key rg)) = true ->
  disk w !! cstr (key rg) = None ->
  cstr (fst (handle_get rg resp BUFFER_SIZE w)) = MSG_NOTFOUND.
Proof.
  intros Hv Hf. unfold handle_get. rewrite Hv. simpl negb. cbv iota.
  unfold fopen_r. rewrite Hf. cbn [fst].
  apply respond_cstr; [vm_compute; lia | reflexivity].
Qed.

(** C2.  SET then GET: for a valid key whose file the system lets the server
    open for writing, and the value [v] held by the request (a C string, so
    without NUL), handle_set answers "OK\n" and a handle_get on the same key
    in the world it leaves answers "OK\n", then the first BUFFER_SIZE-5 bytes
    of [v], then "\n"; that is [v] itself, byte for byte, when [v] is at
    most BUFFER_SIZE-5 = 1019 bytes long. *)
Theorem set_then_get_roundtrip :
  forall (rs rg : Request) (resp1 resp2 : string) (w : World),
    clave_valida (Some (key rs)) = true ->
    cstr (key rg) = cstr (key rs) ->
    (forall f, disk w !! cstr (key rs) = Some f -> writable f = true) ->
    let v := cstr (value rs) in
    let r1 := handle_set rs resp1 BUFFER_SIZE w in
    let r2 := handle_get rg resp2 BUFFER_SIZE (snd r1) in
    mem NUL v = false /\
    cstr (fst r1) = MSG_OK /\
    cstr (fst r2) = "OK" ++ LF ++ stake (BUFFER_SIZE - 5) v ++ LF /\
    (String.length v <= BUFFER_SIZE - 5 -> cstr (fst r2) = "OK" ++ LF ++ v ++ LF).
Proof.
  intros rs rg resp1 resp2 w Hv Hk Hw v r1 r2.
  destruct (handle_set_stores rs resp1 w Hv Hw) as (w1 & Hset & Hfile).
  assert (Hv' : clave_valida (Some (key rg)) = true)
    by (now rewrite (clave_valida_cstr _ _ Hk)).
  assert (Hget : cstr (fst r2) = "OK" ++ LF ++ stake (BUFFER_SIZE - 5) v ++ LF).
  { subst r2 r1. rewrite Hset. cbn [snd]. rewrite <- Hk in Hfile.
    rewrite (handle_get_reads rg resp2 w1 _ Hv' Hfile). cbn [content].
    rewrite cstr_app_nul_gen.
    rewrite (cstr_id (stake (BUFFER_SIZE - 1) (cstr (value rs))))
      by (apply mem_stake, cstr_nul_free).
    rewrite stake_stake by (unfold BUFFER_SIZE; lia). reflexivity. }
  split; [apply cstr_nul_free |]. split; [| split].
  - subst r1. rewrite Hset. cbn [fst].
    apply respond_cstr; [vm_compute; lia | reflexivity].
  - exact Hget.
  - intros Hlen. rewrite Hget. now rewrite stake_all.
Qed.

Lemma set_then_get_roundtrip_witness :
  let rs := {| cmd := CMD_SET; key := poke (zeros 100) "greeting";
               value := poke (zeros BUFFER_SIZE) "hello world" |} in
  let rg := {| cmd := CMD_GET; key := poke (zeros 100) "greeting";
               value := zeros BUFFER_SIZE |} in
  let w := blank in
  cstr (fst (handle_get rg (zeros BUFFER_SIZE) BUFFER_SIZE
               (snd (handle_set rs (zeros BUFFER_SIZE) BUFFER_SIZE w))))
  = "OK" ++ LF ++ "hello world" ++ LF.
Proof.
  intros rs rg w.
  refine (proj2 (proj2 (proj2
    (set_then_get_roundtrip rs rg (zeros BUFFER_SIZE) (zeros BUFFER_SIZE) w
       _ _ _))) _).
  - reflexivity.
  - reflexivity.
  - intros f Hf. vm_compute in Hf. discriminate Hf.
  - vm_compute. lia.
Defined.

End Storage.

Section Deletion.

Import Server2.

(** C6.  handle_del on a valid key answers "OK\n" in every world, whether
    or not the key has a file; a second handle_del answers "OK\n" again and
    leaves the disk as the first left it, and a handle_get on that key then
    answers "NOTFOUND\n". *)
Theorem del_is_idempotent :
  forall (rd rg : Request) (resp : string) (w : World),
    clave_valida (Some (key rd)) = true ->
    cstr (key rg) = cstr (key rd) ->
    let r1 := handle_del rd resp BUFFER_SIZE w in
    let r2 := handle_del rd resp BUFFER_SIZE (snd r1) in
    let r3 := handle_get rg resp BUFFER_SIZE (snd r2) in
    cstr (fst r1) = MSG_OK /\
    cstr (fst r2) = MSG_OK /\
    disk (snd r2) = disk (snd r1) /\
    cstr (fst r3) = MSG_NOTFOUND.
Proof.
  intros rd rg resp w Hv Hk r1 r2 r3.
  assert (Hdel : forall w', handle_del rd resp BUFFER_SIZE w'
                            = (respond resp BUFFER_SIZE MSG_OK, remove (cstr (key rd)) w'))
    by (intros w'; unfold handle_del; now rewrite Hv).
  assert (Hok : cstr (respond resp BUFFER_SIZE MSG_OK) = MSG_OK)
    by (apply respond_cstr; [vm_compute; lia | reflexivity]).
  subst r3 r2 r1. rewrite !Hdel. cbn [fst snd].
  split; [exact Hok |]. split; [exact Hok |]. split.
  - unfold remove. cbn [disk emit set_disk]. apply delete_delete_eq.
  - apply handle_get_absent.
    + now rewrite (clave_valida_cstr _ _ Hk).
    + rewrite Hk. unfold remove. cbn [disk emit set_disk].
      apply lookup_delete_eq.
Qed.

Lemma del_is_idempotent_witness :
  let rd := {| cmd := CMD_DEL; key := poke (zeros 100) "greeting";
               value := zeros BUFFER_SIZE |} in
  let w := {| disk := {[ "greeting" := {| content := "hello"; writable := true |} ]};
              log := [] |} in
  cstr (fst (handle_del rd (zeros BUFFER_SIZE) BUFFER_SIZE w)) = MSG_OK.
Proof.
  intros rd w.
  refine (proj1 (del_is_idempotent rd rd (zeros BUFFER_SIZE) w _ _));
    reflexivity.
Defined.

End Deletion.

(** ** Scanning *)

Section ScanFacts.

Implicit Types (s t r : string) (c : ascii) (f : ascii -> bool) (w : nat).

Lemma sall_app f s t : sall f (s ++ t) = sall f s && sall f t.
Proof.
  induction s as [|c s IH]; simpl; [reflexivity |].
  now rewrite IH, andb_assoc.
Qed.

Lemma sall_stake f n s : sall f s = true -> sall f (stake n s) = true.
Proof.
  revert n; induction s as [|c s IH]; intros [|n] H; simpl in *; try reflexivity.
  apply andb_true_iff in H as [H1 H2]. now rewrite H1, IH.
Qed.

Lemma sall_sdrop f n s : sall f s = true -> sall f (sdrop n s) = true.
Proof.
  revert n; induction s as [|c s IH]; intros [|n] H; simpl in *; try assumption.
  apply andb_true_iff in H as [H1 H2]. now apply IH.
Qed.

Lemma sall_mem f s c : sall f s = true -> f c = false -> mem c s = false.
Proof.
  intros Hs Hc. induction s as [|d s IH]; simpl in *; [reflexivity |].
  apply andb_true_iff in Hs as [H1 H2]. rewrite (IH H2), orb_false_r.
  destruct (Ascii.eqb c d) eqn:E; [| reflexivity].
  apply Ascii.eqb_eq in E. congruence.
Qed.

Lemma sall_weaken f g s :
  (forall c, f c = true -> g c = true) -> sall f s = true -> sall g s = true.
Proof.
  intros Hfg. induction s as [|c s IH]; simpl; [reflexivity |].
  intros H. apply andb_true_iff in H as [H1 H2]. now rewrite (Hfg _ H1), IH.
Qed.

Lemma sall_not_nul s : sall not_nul s = true <-> mem NUL s = false.
Proof.
  unfold not_nul. induction s as [|c s IH]; simpl; [tauto |].
  rewrite andb_true_iff, orb_false_iff, IH, negb_true_iff, (Ascii.eqb_sym c).
  tauto.
Qed.

Lemma cstr_not_nul a : sall not_nul (cstr a) = true.
Proof. apply sall_not_nul, cstr_nul_free. Qed.

(** *** skip_ws *)

Lemma skip_ws_sall f s : sall f s = true -> sall f (skip_ws s) = true.
Proof.
  induction s as [|c s IH]; simpl; [reflexivity |]. intros H.
  destruct (isspace c); [| exact H].
  apply andb_true_iff in H as [_ H]. now apply IH.
Qed.

Lemma skip_ws_head s c r : skip_ws s = String c r -> isspace c = false.
Proof.
  induction s as [|d s IH]; simpl; [discriminate |].
  destruct (isspace d) eqn:E; [exact IH |].
  intros H. injection H as -> _. exact E.
Qed.

Lemma skip_ws_nonspace c r : isspace c = false -> skip_ws (String c r) = String c r.
Proof. intros H. simpl. now rewrite H. Qed.

Lemma tokens_skip_ws s : tokens (skip_ws s) = tokens s.
Proof.
  induction s as [|c s IH]; [reflexivity |].
  simpl skip_ws. destruct (isspace c) eqn:E; [| reflexivity].
  rewrite IH. simpl. now rewrite E.
Qed.

Lemma tokens_nonspace c r : isspace c = false -> tokens (String c r) <> [].
Proof.
  intros H. simpl. rewrite H. destruct r as [|d r]; [discriminate |].
  destruct (isspace d); [discriminate |]. now destruct (tokens (String d r)).
Qed.

Lemma skip_ws_empty s : skip_ws s = "" <-> tokens s = [].
Proof.
  rewrite <- tokens_skip_ws. destruct (skip_ws s) as [|c r] eqn:E.
  - simpl. tauto.
  - split; [discriminate |]. intros H. exfalso.
    exact (tokens_nonspace c r (skip_ws_head _ _ _ E) H).
Qed.

(** *** The body of a conversion *)

Lemma scan_all_app f s : fst (scan_all f s) ++ snd (scan_all f s) = s.
Proof.
  induction s as [|c s IH]; simpl; [reflexivity |].
  destruct (f c); [| reflexivity].
  destruct (scan_all f s) as [t r]. simpl in *. now rewrite IH.
Qed.

Lemma scan_all_sall f s : sall f (fst (scan_all f s)) = true.
Proof.
  induction s as [|c s IH]; simpl; [reflexivity |].
  destruct (f c) eqn:E; [| reflexivity].
  destruct (scan_all f s) as [t r]. simpl in *. now rewrite E, IH.
Qed.

Lemma scan_all_rest f s c r : snd (scan_all f s) = String c r -> f c = false.
Proof.
  induction s as [|d s IH]; simpl; [discriminate |].
  destruct (f d) eqn:E.
  - destruct (scan_all f s) as [t r']. simpl in *. exact IH.
  - simpl. intros H. injection H as -> _. exact E.
Qed.

(** A bounded conversion stores the first [w] bytes of the run and leaves
    the rest of the run in the input. *)
Lemma scan_run_all f w s :
  scan_run f w s
  = (stake w (fst (scan_all f s)),
     sdrop w (fst (scan_all f s)) ++ snd (scan_all f s)).
Proof.
  revert w; induction s as [|c s IH]; intros w.
  - now destruct w.
  - destruct w as [|w].
    + simpl. destruct (f c) eqn:E; [| reflexivity].
      destruct (scan_all f s) as [t r] eqn:Es. simpl.
      pose proof (scan_all_app f s) as H. rewrite Es in H. simpl in H.
      now rewrite H.
    + simpl. destruct (f c) eqn:E; [| reflexivity].
      rewrite IH. destruct (scan_all f s) as [t r]. reflexivity.
Qed.

Lemma scan_run_fits f w s :
  String.length (fst (scan_all f s)) <= w -> scan_run f w s = scan_all f s.
Proof.
  intros H. rewrite scan_run_all, stake_all, sdrop_all by assumption.
  simpl. now destruct (scan_all f s).
Qed.

Lemma scan_all_head f c r : f c = true -> fst (scan_all f (String c r)) <> "".
Proof. intros H. simpl. rewrite H. now destruct (scan_all f r). Qed.

Lemma scan_all_app_sall f a r :
  sall f a = true -> fst (scan_all f (a ++ r)) = a ++ fst (scan_all f r).
Proof.
  induction a as [|c a IH]; simpl; [reflexivity |]. intros H.
  apply andb_true_iff in H as [H1 H2]. rewrite H1.
  specialize (IH H2). destruct (scan_all f (a ++ r)) as [t r'].
  simpl in *. now rewrite IH.
Qed.

(** The first token is the run of non-blank bytes at the front. *)
Lemma tokens_scan c r :
  isspace c = false ->
  tokens (String c r)
  = fst (scan_all nonspace (String c r)) :: tokens (snd (scan_all nonspace (String c r))).
Proof.
  revert c; induction r as [|d r IH]; intros c Hc.
  - simpl. unfold nonspace. now rewrite Hc.
  - assert (Hn : nonspace c = true) by (unfold nonspace; now rewrite Hc).
    change (tokens (String c (String d r)))
      with (if isspace c then tokens (String d r)
            else if isspace d then String c "" :: tokens (String d r)
                 else match tokens (String d r) with
                      | t :: ts => String c t :: ts
                      | [] => [String c ""]
                      end).
    rewrite Hc.
    change (scan_all nonspace (String c (String d r)))
      with (if nonspace c
            then let (t, r') := scan_all nonspace (String d r) in (String c t, r')
            else ("", String c (String d r))).
    rewrite Hn.
    destruct (isspace d) eqn:Ed.
    + assert (Hd : scan_all nonspace (String d r) = ("", String d r))
        by (simpl; unfold nonspace; now rewrite Ed).
      now rewrite Hd.
    + rewrite (IH d Ed).
      destruct (scan_all nonspace (String d r)) as [t r']. reflexivity.
Qed.

End ScanFacts.

Section ScanRequestFacts.

Import Server2.

Lemma scan_run_props f w s t rest :
  scan_run f w s = (t, rest) -> sall not_nul s = true ->
  String.length t <= w /\ sall f t = true /\ sall not_nul t = true
  /\ sall not_nul rest = true.
Proof.
  rewrite scan_run_all. intros H Hs. injection H as <- <-.
  pose proof (scan_all_app f s) as Happ.
  rewrite <- Happ, sall_app in Hs. apply andb_true_iff in Hs as [H1 H2].
  split; [apply length_stake_le |].
  split; [apply sall_stake, scan_all_sall |].
  split; [now apply sall_stake |].
  rewrite sall_app, H2, andb_true_r. now apply sall_sdrop.
Qed.

Lemma scan_run_nonempty f w c r :
  f c = true -> fst (scan_run f (S w) (String c r)) <> "".
Proof. intros H. simpl. rewrite H. now destruct (scan_run f w r). Qed.

Lemma nonspace_not_newline c : isspace c = false -> not_newline c = true.
Proof.
  unfold isspace, not_newline. intros H.
  destruct (Ascii.eqb c "010"); [| reflexivity].
  now rewrite !orb_true_r in H.
Qed.

Lemma nonspace_true c : isspace c = false -> nonspace c = true.
Proof. unfold nonspace. now intros ->. Qed.

(** What the three conversions can store, for any input. *)
Lemma scan_request_bounds buf :
  let sc := scan_request buf in
  (forall c, sc_cmd sc = Some c ->
     c <> "" /\ String.length c <= 9 /\ sall nonspace c = true /\ sall not_nul c = true) /\
  (forall k, sc_key sc = Some k ->
     k <> "" /\ String.length k <= 99 /\ sall nonspace k = true /\ sall not_nul k = true) /\
  (forall v, sc_value sc = Some v ->
     v <> "" /\ String.length v <= 1023 /\ sall not_newline v = true /\ sall not_nul v = true) /\
  ((matched sc = EOF /\ sc_cmd sc = None /\ sc_key sc = None /\ sc_value sc = None) \/
   (matched sc = 1%Z /\ sc_cmd sc <> None /\ sc_key sc = None /\ sc_value sc = None) \/
   (matched sc = 2%Z /\ sc_cmd sc <> None /\ sc_key sc <> None /\ sc_value sc = None) \/
   (matched sc = 3%Z /\ sc_cmd sc <> None /\ sc_key sc <> None /\ sc_value sc <> None)).
Proof.
  unfold scan_request, sscanf3.
  pose proof (skip_ws_sall not_nul _ (cstr_not_nul buf)) as H0.
  destruct (skip_ws (cstr buf)) as [|c0 r0] eqn:E0.
  { cbn. repeat split; try discriminate. now left. }
  pose proof (skip_ws_head _ _ _ E0) as Hc0.
  pose proof (scan_run_nonempty nonspace 8 c0 r0 (nonspace_true _ Hc0)) as Hne1.
  destruct (scan_run nonspace 9 (String c0 r0)) as [c s1] eqn:E1.
  destruct (scan_run_props _ _ _ _ _ E1 H0) as (L1 & A1 & N1 & R1).
  pose proof (skip_ws_sall not_nul _ R1) as H1.
  destruct (skip_ws s1) as [|c1 r1] eqn:E2.
  { cbn. split; [| split; [| split]]; try discriminate.
    - intros ? [= <-]. auto.
    - right; left. repeat split; discriminate. }
  pose proof (skip_ws_head _ _ _ E2) as Hc1.
  pose proof (scan_run_nonempty nonspace 98 c1 r1 (nonspace_true _ Hc1)) as Hne2.
  destruct (scan_run nonspace 99 (String c1 r1)) as [k s3] eqn:E3.
  destruct (scan_run_props _ _ _ _ _ E3 H1) as (L2 & A2 & N2 & R2).
  pose proof (skip_ws_sall not_nul _ R2) as H2.
  destruct (skip_ws s3) as [|c2 r2] eqn:E4.
  { cbn. split; [| split; [| split]]; try discriminate.
    - intros ? [= <-]. auto.
    - intros ? [= <-]. auto.
    - right; right; left. repeat split; discriminate. }
  pose proof (skip_ws_head _ _ _ E4) as Hc2.
  pose proof (scan_run_nonempty not_newline 1022 c2 r2 (nonspace_not_newline _ Hc2)) as Hne3.
  destruct (scan_run not_newline 1023 (String c2 r2)) as [v s5] eqn:E5.
  destruct (scan_run_props _ _ _ _ _ E5 H2) as (L3 & A3 & N3 & R3).
  simpl in Hne1, Hne2, Hne3.
  destruct v as [|cv v]; [congruence |].
  cbn. split; [| split; [| split]].
  - intros ? [= <-]. auto.
  - intros ? [= <-]. auto.
  - intros ? [= <-]. auto.
  - right; right; right. repeat split; discriminate.
Qed.

End ScanRequestFacts.

Section ScanTokens.

Import Server2.

(** The command conversion stores the first 9 bytes of the first token. *)
Lemma scan_request_cmd buf t ts :
  tokens (cstr buf) = t :: ts -> sc_cmd (scan_request buf) = Some (stake 9 t).
Proof.
  intros Ht. unfold scan_request, sscanf3.
  destruct (skip_ws (cstr buf)) as [|c0 r0] eqn:E0.
  { apply skip_ws_empty in E0. congruence. }
  pose proof (skip_ws_head _ _ _ E0) as Hc0.
  rewrite <- tokens_skip_ws, E0, (tokens_scan _ _ Hc0) in Ht.
  assert (Hh : fst (scan_all nonspace (String c0 r0)) = t) by (now injection Ht).
  rewrite scan_run_all, Hh. cbn [fst snd].
  destruct (skip_ws (sdrop 9 t ++ _)) as [|c1 r1]; [reflexivity |].
  destruct (scan_run nonspace 99 _) as [k s3].
  destruct (skip_ws s3) as [|c2 r2]; [reflexivity |].
  destruct (scan_run not_newline 1023 _) as [v s5]. now destruct v.
Qed.

(** When the first token fits the command conversion, the scan in terms of
    the tokens of the input. *)
Lemma scan_request_tokens buf t ts :
  tokens (cstr buf) = t :: ts -> String.length t <= 9 ->
  let sc := scan_request buf in
  sc_cmd sc = Some t /\
  match ts with
  | [] => matched sc = 1%Z /\ sc_key sc = None /\ sc_value sc = None
  | k :: ts' =>
      sc_key sc = Some (stake 99 k) /\
      if Nat.ltb 99 (String.length k) || match ts' with [] => false | _ => true end
      then matched sc = 3%Z /\ sc_value sc <> None
      else matched sc = 2%Z /\ sc_value sc = None
  end.
Proof.
  intros Ht Hlen sc.
  split; [subst sc; rewrite (scan_request_cmd _ _ _ Ht); now rewrite stake_all |].
  subst sc. unfold scan_request, sscanf3.
  destruct (skip_ws (cstr buf)) as [|c0 r0] eqn:E0.
  { apply skip_ws_empty in E0. congruence. }
  pose proof (skip_ws_head _ _ _ E0) as Hc0.
  rewrite <- tokens_skip_ws, E0, (tokens_scan _ _ Hc0) in Ht.
  assert (Hh : fst (scan_all nonspace (String c0 r0)) = t) by (now injection Ht).
  assert (Hts : tokens (snd (scan_all nonspace (String c0 r0))) = ts)
    by (now injection Ht).
  clear Ht. rewrite scan_run_fits by (now rewrite Hh).
  destruct (scan_all nonspace (String c0 r0)) as [t0 s1] eqn:E1.
  cbn [fst snd] in Hh, Hts. subst t0.
  destruct (skip_ws s1) as [|c1 r1] eqn:E2.
  { apply skip_ws_empty in E2. rewrite E2 in Hts. subst ts. now cbn. }
  pose proof (skip_ws_head _ _ _ E2) as Hc1.
  rewrite <- tokens_skip_ws, E2, (tokens_scan _ _ Hc1) in Hts.
  rewrite scan_run_all.
  pose proof (scan_all_sall nonspace (String c1 r1)) as Hk.
  destruct (scan_all nonspace (String c1 r1)) as [k s3] eqn:E3.
  cbn [fst snd] in Hts, Hk. subst ts. cbn [fst snd].
  destruct (Nat.ltb 99 (String.length k)) eqn:Elong.
  - (* the key token is longer than 99 bytes: its tail is scanned as value *)
    apply Nat.ltb_lt in Elong.
    destruct (sdrop 99 k) as [|c2 r2] eqn:Ed.
    { pose proof (length_sdrop 99 k) as Hl. rewrite Ed in Hl. simpl in Hl. lia. }
    assert (Hc2 : isspace c2 = false).
    { pose proof (sall_sdrop nonspace 99 k Hk) as Hs. rewrite Ed in Hs.
      simpl in Hs. apply andb_true_iff in Hs as [Hs _].
      unfold nonspace in Hs. now apply negb_true_iff in Hs. }
    cbn [String.append]. rewrite (skip_ws_nonspace _ _ Hc2).
    pose proof (scan_run_nonempty not_newline 1022 c2 (r2 ++ s3)
                  (nonspace_not_newline _ Hc2)) as Hne.
    destruct (scan_run not_newline 1023 (String c2 (r2 ++ s3))) as [v s5].
    simpl in Hne. destruct v as [|cv v]; [congruence |].
    cbn. repeat split; discriminate.
  - apply Nat.ltb_ge in Elong. rewrite sdrop_all by assumption.
    cbn [String.append orb].
    destruct (skip_ws s3) as [|c2 r2] eqn:E4.
    { apply skip_ws_empty in E4. rewrite E4. now cbn. }
    pose proof (skip_ws_head _ _ _ E4) as Hc2.
    assert (Hts' : tokens s3 <> []).
    { rewrite <- tokens_skip_ws, E4. now apply tokens_nonspace. }
    pose proof (scan_run_nonempty not_newline 1022 c2 r2
                  (nonspace_not_newline _ Hc2)) as Hne.
    destruct (scan_run not_newline 1023 (String c2 r2)) as [v s5].
    simpl in Hne. destruct v as [|cv v]; [congruence |].
    destruct (tokens s3); [congruence |].
    cbn. repeat split; discriminate.
Qed.

(** A key token longer than 99 bytes: the value conversion starts at its
    hundredth byte. *)
Lemma scan_request_long_key buf t k ts :
  tokens (cstr buf) = t :: k :: ts -> String.length t <= 9 ->
  99 < String.length k ->
  exists more,
    sc_value (scan_request buf) = Some (stake 1023 (sdrop 99 k ++ more)).
Proof.
  intros Ht Hlen Hlong. unfold scan_request, sscanf3.
  destruct (skip_ws (cstr buf)) as [|c0 r0] eqn:E0.
  { apply skip_ws_empty in E0. congruence. }
  pose proof (skip_ws_head _ _ _ E0) as Hc0.
  rewrite <- tokens_skip_ws, E0, (tokens_scan _ _ Hc0) in Ht.
  assert (Hh : fst (scan_all nonspace (String c0 r0)) = t) by (now injection Ht).
  assert (Hts : tokens (snd (scan_all nonspace (String c0 r0))) = k :: ts)
    by (now injection Ht).
  clear Ht. rewrite scan_run_fits by (now rewrite Hh).
  destruct (scan_all nonspace (String c0 r0)) as [t0 s1] eqn:E1.
  cbn [fst snd] in Hh, Hts. subst t0.
  destruct (skip_ws s1) as [|c1 r1] eqn:E2.
  { apply skip_ws_empty in E2. congruence. }
  pose proof (skip_ws_head _ _ _ E2) as Hc1.
  rewrite <- tokens_skip_ws, E2, (tokens_scan _ _ Hc1) in Hts.
  rewrite scan_run_all.
  pose proof (scan_all_sall nonspace (String c1 r1)) as Hk.
  destruct (scan_all nonspace (String c1 r1)) as [k0 s3] eqn:E3.
  assert (k0 = k) by (now injection Hts). subst k0.
  cbn [fst snd] in Hk |- *.
  pose proof (sall_sdrop nonspace 99 k Hk) as Hd.
  destruct (sdrop 99 k) as [|c2 r2] eqn:Ed.
  { pose proof (length_sdrop 99 k) as Hl. rewrite Ed in Hl. simpl in Hl. lia. }
  assert (Hc2 : isspace c2 = false).
  { simpl in Hd. apply andb_true_iff in Hd as [Hd _].
    unfold nonspace in Hd. now apply negb_true_iff in Hd. }
  cbn [String.append]. rewrite (skip_ws_nonspace _ _ Hc2).
  pose proof (scan_run_nonempty not_newline 1022 c2 (r2 ++ s3)
                (nonspace_not_newline _ Hc2)) as Hne.
  rewrite scan_run_all in Hne |- *. cbn [fst] in Hne.
  change (String c2 (r2 ++ s3)) with (String c2 r2 ++ s3) in Hne |- *.
  assert (Hnn : sall not_newline (String c2 r2) = true).
  { apply (sall_weaken nonspace); [| exact Hd].
    intros c Hc. apply nonspace_not_newline.
    unfold nonspace in Hc. now apply negb_true_iff in Hc. }
  rewrite (scan_all_app_sall _ _ s3 Hnn) in Hne |- *.
  exists (fst (scan_all not_newline s3)).
  destruct (stake 1023 _) as [|cv v] eqn:Ev; [congruence | reflexivity].
Qed.

End ScanTokens.

(** ** The request parser (server2.c) *)

Section ParserFacts.

Import Server2.

Lemma cstr_assign n t : mem NUL t = false -> cstr (assign (zeros n) (Some t)) = t.
Proof. intros H. simpl. now apply cstr_poke. Qed.

Lemma cstr_zeros n : cstr (zeros n) = "".
Proof. now destruct n. Qed.

Lemma parse_cmd_command_of a : parse_cmd a = command_of (cstr a).
Proof. reflexivity. Qed.

Lemma is_command_length t : is_command t = true -> String.length t = 3.
Proof.
  unfold is_command. intros H.
  apply orb_true_iff in H as [H | H]; [apply orb_true_iff in H as [H | H] |];
    apply String.eqb_eq in H; now subst t.
Qed.

Lemma is_command_cases t :
  is_command t = true -> t = "SET" \/ t = "GET" \/ t = "DEL".
Proof.
  unfold is_command. intros H.
  apply orb_true_iff in H as [H | H]; [apply orb_true_iff in H as [H | H] |];
    apply String.eqb_eq in H; auto.
Qed.

Lemma command_of_valid t : is_cmd (command_of t) CMD_INVALID = negb (is_command t).
Proof.
  unfold command_of, is_command.
  destruct (String.eqb t "SET"); [reflexivity |].
  destruct (String.eqb t "GET"); [reflexivity |].
  now destruct (String.eqb t "DEL").
Qed.

(** Cutting a token after 9 bytes does not change which command it names. *)
Lemma command_of_stake t : command_of (stake 9 t) = command_of t.
Proof.
  destruct (Nat.leb (String.length t) 9) eqn:E.
  - apply Nat.leb_le in E. now rewrite stake_all.
  - apply Nat.leb_gt in E.
    assert (H9 : String.length (stake 9 t) = 9) by (rewrite length_stake; lia).
    assert (Hno : forall u, 9 <= String.length u -> command_of u = CMD_INVALID).
    { intros u Hu. unfold command_of.
      destruct (String.eqb u "SET") eqn:E1;
        [apply String.eqb_eq in E1; subst u; simpl in Hu; lia |].
      destruct (String.eqb u "GET") eqn:E2;
        [apply String.eqb_eq in E2; subst u; simpl in Hu; lia |].
      destruct (String.eqb u "DEL") eqn:E3;
        [apply String.eqb_eq in E3; subst u; simpl in Hu; lia |].
      reflexivity. }
    rewrite !Hno by lia. reflexivity.
Qed.

Lemma scan_request_empty buf :
  tokens (cstr buf) = [] ->
  scan_request buf
  = {| matched := EOF; sc_cmd := None; sc_key := None; sc_value := None |}.
Proof.
  intros H. apply skip_ws_empty in H. unfold scan_request, sscanf3. now rewrite H.
Qed.

(** The status of parse_request against the classification of the input.
    The two agree but for SET followed by one token longer than 99 bytes,
    where the specification has no value and the scan finds one in the
    bytes of the token that the key conversion left.  A success leaves the
    request filled in. *)
Lemma parse_request_spec :
  forall (buf : string) (r0 : Request),
    (fst (parse_request (Some buf) (Some r0)) = status_of (classify buf) \/
     exists k,
       tokens (cstr buf) = ["SET"; k] /\ 99 < String.length k /\
       classify buf = Some MissingValue /\
       fst (parse_request (Some buf) (Some r0)) = 0%Z) /\
    (fst (parse_request (Some buf) (Some r0)) = 0%Z ->
     exists t k ts r,
       tokens (cstr buf) = t :: k :: ts /\
       snd (parse_request (Some buf) (Some r0)) = Some r /\
       cmd r = command_of t /\ cmd r <> CMD_INVALID /\
       cstr (key r) = stake 99 k /\ cstr (key r) <> "" /\
       (cmd r = CMD_SET -> cstr (value r) <> "")).
Proof.
  intros buf r0. unfold classify, parse_request.
  destruct (tokens (cstr buf)) as [|t ts] eqn:Ht.
  { rewrite (scan_request_empty _ Ht). cbn. split; [now left | discriminate]. }
  pose proof (scan_request_cmd _ _ _ Ht) as Hcmd.
  destruct (scan_request_bounds buf) as (Bc & Bk & Bv & Bm).
  assert (Hm : (matched (scan_request buf) <? 1)%Z = false).
  { apply Z.ltb_ge. destruct Bm as [(_ & H & _) | [(H & _) | [(H & _) | (H & _)]]];
      [congruence | lia | lia | lia]. }
  rewrite Hm, Hcmd, parse_cmd_command_of.
  destruct (Bc _ Hcmd) as (_ & _ & _ & Hn). apply sall_not_nul in Hn.
  rewrite (cstr_assign 10 _ Hn), command_of_stake, command_of_valid.
  destruct (is_command t) eqn:Hc; cbn [negb]; [| cbn; split; [now left | discriminate]].
  pose proof (is_command_length _ Hc) as Hl.
  destruct (scan_request_tokens buf t ts Ht ltac:(lia)) as [_ Htok].
  apply is_command_cases in Hc.
  destruct ts as [|k ts].
  - destruct Htok as (M & K & V). rewrite M, K, V.
    destruct Hc as [-> | [-> | ->]]; cbn; (split; [now left | discriminate]).
  - destruct Htok as (K & Hv).
    destruct (Bk _ K) as (Kne & _ & _ & Kn). apply sall_not_nul in Kn.
    assert (Hkey : cstr (assign (zeros 100) (sc_key (scan_request buf))) = stake 99 k)
      by (rewrite K; now apply cstr_assign).
    assert (Hval : sc_value (scan_request buf) <> None ->
                   cstr (assign (zeros BUFFER_SIZE) (sc_value (scan_request buf))) <> "").
    { destruct (sc_value (scan_request buf)) as [v|] eqn:Ev; [| congruence].
      intros _. destruct (Bv _ eq_refl) as (Vne & _ & _ & Vn).
      apply sall_not_nul in Vn. now rewrite cstr_assign. }
    assert (Hkne : cstr (assign (zeros 100) (sc_key (scan_request buf))) <> "")
      by (now rewrite Hkey).
    destruct (Nat.ltb 99 (String.length k)) eqn:Elong; destruct ts as [|v ts];
      cbn [orb] in Hv; destruct Hv as (M & V); rewrite M;
      destruct Hc as [-> | [-> | ->]];
      cbn [command_of value_captured String.eqb Ascii.eqb Bool.eqb
        is_cmd negb andb orb Z.ltb Z.compare Pos.compare Pos.compare_cont
        fst snd status_of];
      (split;
       [first [ left; reflexivity
              | right; exists k; apply Nat.ltb_lt in Elong; now repeat split ] |]);
      try discriminate;
      intros _; eexists _, k, _, _;
      (split; [reflexivity |]); (split; [reflexivity |]);
      cbn [cmd key value];
      (split; [reflexivity |]); (split; [discriminate |]);
      (split; [exact Hkey |]); (split; [exact Hkne |]);
      try discriminate; intros _; now apply Hval.
Qed.

(** What the third conversion stores, against the tokens: a value when a
    token follows the key token, and also when the key token is the last
    one and longer than 99 bytes. *)
Lemma scan_value_by_tokens buf t ts :
  tokens (cstr buf) = t :: ts -> is_command t = true ->
  (sc_value (scan_request buf) <> None <->
   value_captured ts = true \/ exists k, ts = [k] /\ 99 < String.length k).
Proof.
  intros Ht Hc. pose proof (is_command_length _ Hc) as Hl.
  destruct (scan_request_tokens buf t ts Ht ltac:(lia)) as [_ H].
  destruct ts as [|k ts].
  - destruct H as (_ & _ & ->). cbn. split; [congruence |].
    intros [H | (k & H & _)]; discriminate.
  - destruct H as [_ H].
    destruct (Nat.ltb 99 (String.length k)) eqn:Elong; destruct ts as [|v ts];
      cbn [orb] in H; destruct H as [_ H]; cbn [value_captured].
    + apply Nat.ltb_lt in Elong. split; [| intros _; exact H].
      intros _. right. now exists k.
    + split; [now left | intros _; exact H].
    + apply Nat.ltb_ge in Elong. rewrite H. split; [congruence |].
      intros [H' | (k' & H' & Hlong)]; [discriminate |].
      assert (k' = k) by congruence. subst k'. lia.
    + split; [now left | intros _; exact H].
Qed.

(** The inputs the specification lists, and three with an over-long token. *)
Example classify_examples :
  classify "" = Some Empty /\
  classify "FOO" = Some UnknownCommand /\
  classify "set a b" = Some UnknownCommand /\
  classify "GET" = Some MissingKey /\
  classify "SET key" = Some MissingValue /\
  classify "SET" = Some MissingValue /\
  classify ("SET greeting hello world" ++ LF) = None /\
  classify ("GETGETGETGET k" ++ LF) = Some UnknownCommand /\
  classify ("SET " ++ fill "k" 100) = Some MissingValue /\
  classify ("SET " ++ fill "k" 100 ++ " v") = None.
Proof. repeat split; now vm_compute. Qed.

End ParserFacts.

Section RequestShape.

Import Server2.

Lemma parse_request_fields buf r0 :
  exists c,
    snd (parse_request (Some buf) (Some r0))
    = Some {| cmd := c;
              key := assign (zeros 100) (sc_key (scan_request buf));
              value := assign (zeros BUFFER_SIZE) (sc_value (scan_request buf)) |}.
Proof.
  unfold parse_request.
  destruct (matched (scan_request buf) <? 1)%Z; [now eexists |].
  destruct (is_cmd _ CMD_INVALID); [now eexists |].
  destruct (_ && _); [now eexists |].
  destruct (_ && _); now eexists.
Qed.

(** An array of [n] zero bytes after a conversion of width below [n]: it
    keeps its size and holds the stored string, terminated. *)
Lemma assign_shape n o bound :
  bound < n ->
  (forall t, o = Some t -> String.length t <= bound /\ sall not_nul t = true) ->
  let a := assign (zeros n) o in
  String.length a = n /\ strlen a <= bound /\ String.get (strlen a) a = Some NUL
  /\ (forall t, o = Some t -> cstr a = t) /\ (o = None -> cstr a = "").
Proof.
  intros Hb Ho a. subst a. destruct o as [t|].
  - destruct (Ho t eq_refl) as [Hl Hn]. apply sall_not_nul in Hn.
    unfold strlen. rewrite (cstr_assign n t Hn). simpl assign.
    split; [rewrite length_poke; rewrite length_zeros; [reflexivity | lia] |].
    split; [exact Hl |]. split; [apply get_app_nul |].
    split; [| discriminate]. now intros ? [= <-].
  - unfold strlen. simpl assign. rewrite cstr_zeros.
    split; [apply length_zeros |]. split; [simpl; lia |].
    split; [destruct n; [lia | reflexivity] |].
    split; [discriminate | reflexivity].
Qed.

(** C10.  After a successful parse the key array (100 bytes) holds a C
    string of 1 to 99 bytes followed by its NUL, with no white-space byte in
    it; so for a key that reaches the handlers through the parser the
    validator's verdict is decided by '/', '\' and '.' alone: its test for a
    space (and for the empty key) never fires. *)
Theorem parsed_key_has_no_space :
  forall (buf : string) (r0 req : Request),
    parse_request (Some buf) (Some r0) = (0%Z, Some req) ->
    let k := cstr (key req) in
    String.length (key req) = 100 /\
    1 <= String.length k <= 99 /\
    String.get (String.length k) (key req) = Some NUL /\
    sall nonspace k = true /\
    mem " " k = false /\
    clave_valida (Some (key req)) = negb (mem "/" k || mem "\" k || mem "." k).
Proof.
  intros buf r0 req Hp k. subst k.
  destruct (parse_request_fields buf r0) as [c Hf].
  rewrite Hp in Hf. cbn [snd] in Hf.
  assert (Hreq : key req = assign (zeros 100) (sc_key (scan_request buf)))
    by (now inversion Hf).
  rewrite Hreq. clear Hf c.
  destruct (scan_request_bounds buf) as (_ & Bk & _ & _).
  destruct (assign_shape 100 (sc_key (scan_request buf)) 99 ltac:(lia)) as
    (Hlen & Hle & Hget & Hsome & Hnone).
  { intros t Ht. destruct (Bk t Ht) as (_ & ? & _ & ?). auto. }
  destruct (parse_request_spec buf r0) as [_ Hok].
  rewrite Hp in Hok. cbn [fst snd] in Hok.
  destruct (Hok eq_refl)
    as (t & k' & ts & r & _ & Hr & _ & _ & _ & Hne & _).
  assert (r = req) by congruence. subst r. rewrite Hreq in Hne.
  unfold strlen in Hle, Hget.
  set (a := assign (zeros 100) (sc_key (scan_request buf))) in *.
  assert (Hns : sall nonspace (cstr a) = true).
  { destruct (sc_key (scan_request buf)) as [t'|] eqn:E.
    - rewrite (Hsome t' eq_refl). now destruct (Bk t' eq_refl) as (_ & _ & ? & _).
    - now rewrite (Hnone eq_refl). }
  assert (Hsp : mem " " (cstr a) = false) by (now apply (sall_mem nonspace)).
  split; [exact Hlen |]. split.
  { split; [| exact Hle]. destruct (cstr a); [congruence | simpl; lia]. }
  split; [exact Hget |]. split; [exact Hns |]. split; [exact Hsp |].
  rewrite clave_valida_spec. unfold forbidden. rewrite Hsp, orb_false_r.
  destruct (String.eqb (cstr a) "") eqn:E; [apply String.eqb_eq in E; congruence |].
  reflexivity.
Qed.

Lemma parsed_key_has_no_space_witness :
  clave_valida (Some (poke (zeros 100) "a.b"))
  = negb (mem "/" (cstr (poke (zeros 100) "a.b"))
          || mem "\" (cstr (poke (zeros 100) "a.b"))
          || mem "." (cstr (poke (zeros 100) "a.b"))).
Proof.
  refine (proj2 (proj2 (proj2 (proj2 (proj2
    (parsed_key_has_no_space ("GET a.b" ++ LF) req_uninit
       {| cmd := CMD_GET; key := poke (zeros 100) "a.b";
          value := zeros BUFFER_SIZE |} _)))))).
  vm_compute. reflexivity.
Defined.

End RequestShape.

Section Ceilings.

Import Server2.

(** C7, as stated, fails.  A key token of 100 bytes (99 'a' and a 'Z')
    followed by the value "v": the parse succeeds, the key field holds the
    first 99 bytes, and the hundredth byte of the key token is not dropped:
    it is stored at the front of the value field. *)
Lemma key_excess_lands_in_value :
  let k100 := fill "a" 99 ++ "Z" in
  let buf := "SET " ++ k100 ++ " v" ++ LF in
  tokens (cstr buf) = ["SET"; k100; "v"] /\
  String.length k100 = 100 /\
  exists req,
    parse_request (Some buf) (Some req_uninit) = (0%Z, Some req) /\
    cstr (key req) = fill "a" 99 /\
    cstr (value req) = "Z v".
Proof.
  intros k100 buf. split; [now vm_compute |]. split; [reflexivity |].
  eexists. split; [vm_compute; reflexivity |]. split; now vm_compute.
Qed.

(** C7, amended.  The conversions are bounded: the command string holds at
    most 9 bytes, the key field (100 bytes) a C string of at most 99, the
    value field (BUFFER_SIZE bytes) one of at most BUFFER_SIZE-1.  A longer
    token is cut at the bound: the command string is the first 9 bytes of
    the first token and, after a successful parse, the key is the first 99
    bytes of the second token.  The bytes after the cut stay in the input:
    the value of a request whose key token is longer than 99 bytes starts
    with the rest of that token. *)
Theorem fields_within_ceilings :
  forall (buf : string) (r0 req : Request) (st : Z),
    parse_request (Some buf) (Some r0) = (st, Some req) ->
    let cmd_str := assign (zeros 10) (sc_cmd (scan_request buf)) in
    (String.length cmd_str = 10 /\ strlen cmd_str <= 9) /\
    (String.length (key req) = 100 /\ strlen (key req) <= 99) /\
    (String.length (value req) = BUFFER_SIZE /\ strlen (value req) <= BUFFER_SIZE - 1) /\
    (forall t ts, tokens (cstr buf) = t :: ts -> cstr cmd_str = stake 9 t) /\
    (st = 0%Z ->
     exists t k ts,
       tokens (cstr buf) = t :: k :: ts /\ cstr (key req) = stake 99 k /\
       (99 < String.length k ->
        exists more, cstr (value req) = stake 1023 (sdrop 99 k ++ more))).
Proof.
  intros buf r0 req st Hp cmd_str.
  destruct (parse_request_fields buf r0) as [c Hf].
  rewrite Hp in Hf. cbn [snd] in Hf.
  assert (Hk : key req = assign (zeros 100) (sc_key (scan_request buf)))
    by (now inversion Hf).
  assert (Hv : value req = assign (zeros BUFFER_SIZE) (sc_value (scan_request buf)))
    by (now inversion Hf).
  clear Hf. destruct (scan_request_bounds buf) as (Bc & Bk & Bv & _).
  destruct (assign_shape 10 (sc_cmd (scan_request buf)) 9 ltac:(lia))
    as (C1 & C2 & _ & C4 & _).
  { intros t Ht. destruct (Bc t Ht) as (_ & ? & _ & ?). auto. }
  destruct (assign_shape 100 (sc_key (scan_request buf)) 99 ltac:(lia))
    as (K1 & K2 & _).
  { intros t Ht. destruct (Bk t Ht) as (_ & ? & _ & ?). auto. }
  destruct (assign_shape BUFFER_SIZE (sc_value (scan_request buf)) 1023
              ltac:(unfold BUFFER_SIZE; lia)) as (V1 & V2 & _).
  { intros t Ht. destruct (Bv t Ht) as (_ & ? & _ & ?). auto. }
  split; [split; assumption |].
  split; [rewrite Hk; split; assumption |].
  split; [rewrite Hv; split; [assumption | change (BUFFER_SIZE - 1) with 1023; assumption] |].
  split.
  - intros t ts Ht. apply C4. now apply scan_request_cmd with ts.
  - intros ->. destruct (parse_request_spec buf r0) as [_ Hok].
    rewrite Hp in Hok. cbn [fst snd] in Hok.
    destruct (Hok eq_refl)
      as (t & k & ts & r & Ht & Hr & Hcmd & Hvalid & Hkey & _).
    assert (r = req) by congruence. subst r. exists t, k, ts.
    split; [exact Ht |]. split; [exact Hkey |]. intros Hlong.
    assert (Hc : is_command t = true).
    { rewrite Hcmd in Hvalid. pose proof (command_of_valid t) as Hcv.
      destruct (is_command t); [reflexivity |].
      destruct (command_of t); try congruence; discriminate Hcv. }
    pose proof (is_command_length _ Hc) as Hl3.
    destruct (scan_request_long_key buf t k ts Ht ltac:(lia) Hlong) as [more Hmore].
    exists more. rewrite Hv, Hmore.
    destruct (Bv _ Hmore) as (_ & _ & _ & Hn). apply sall_not_nul in Hn.
    now apply cstr_assign.
Qed.

Lemma fields_within_ceilings_witness :
  exists t k ts,
    tokens (cstr ("GET " ++ fill "k" 120)) = t :: k :: ts /\
    cstr (poke (zeros 100) (fill "k" 99)) = stake 99 k /\
    (99 < String.length k ->
     exists more,
       cstr (poke (zeros BUFFER_SIZE) (fill "k" 21)) = stake 1023 (sdrop 99 k ++ more)).
Proof.
  refine (proj2 (proj2 (proj2 (proj2
    (fields_within_ceilings ("GET " ++ fill "k" 120) req_uninit
       {| cmd := CMD_GET; key := poke (zeros 100) (fill "k" 99);
          value := poke (zeros BUFFER_SIZE) (fill "k" 21) |} 0%Z _)))) eq_refl).
  vm_compute. reflexivity.
Defined.

End Ceilings.

Section Classification.

Import Server2.

(** C3, as stated, fails.  SET followed by one token of 100 bytes and
    nothing else: the line has a command and a key token and no value, so
    the classification of the specification is MissingValue (status -5).
    parse_request returns 0: the key conversion stops after 99 bytes and the
    value conversion stores the hundredth.  Over the wire the request is
    answered with OK and the file is created. *)
Lemma set_with_long_key_is_accepted :
  let k100 := fill "k" 100 in
  let buf := "SET " ++ k100 ++ LF in
  tokens (cstr buf) = ["SET"; k100] /\
  classify buf = Some MissingValue /\
  status_of (classify buf) = (-5)%Z /\
  (exists req,
     parse_request (Some buf) (Some req_uninit) = (0%Z, Some req) /\
     cmd req = CMD_SET /\
     cstr (key req) = fill "k" 99 /\
     cstr (value req) = "k") /\
  let w := handle_client (client 4 buf) blank in
  sent 4 (log w) = "OK" ++ LF /\
  disk w = {[ fill "k" 99 := {| content := "k"; writable := true |} ]}.
Proof.
  intros k100 buf. split; [now vm_compute |]. split; [now vm_compute |].
  split; [now vm_compute |]. split.
  - eexists. split; [vm_compute; reflexivity |]. repeat split; now vm_compute.
  - split; now vm_compute.
Qed.

(** C3, amended.  The status of parse_request is that of exactly one
    outcome, decided in this order on the white-space tokens of the input:
    -2 (empty) when there is no token; -3 (unknown command) when the first
    token is not exactly SET, GET or DEL; -4 (missing key) when it is GET or
    DEL and no token follows; -5 (missing value) when it is SET and no token
    follows the key token; 0 otherwise, and then the request holds the
    command, the key (the key token, up to 99 bytes) and, for SET, a value.
    One kind of input is excepted: SET followed by a single token longer
    than 99 bytes.  There the status is 0, not -5: the key is the first 99
    bytes of the token and the value starts with the rest of it. *)
Theorem parse_request_classifies :
  forall (buf : string) (r0 : Request),
    let st := fst (parse_request (Some buf) (Some r0)) in
    ((forall k, tokens (cstr buf) = ["SET"; k] -> String.length k <= 99) ->
     st = status_of (classify buf)) /\
    (forall k, tokens (cstr buf) = ["SET"; k] -> 99 < String.length k ->
       classify buf = Some MissingValue /\ st = 0%Z /\
       exists r more,
         snd (parse_request (Some buf) (Some r0)) = Some r /\
         cmd r = CMD_SET /\ cstr (key r) = stake 99 k /\
         cstr (value r) = stake 1023 (sdrop 99 k ++ more)) /\
    (forall t ts, tokens (cstr buf) = t :: ts -> is_command t = true ->
       (sc_value (scan_request buf) <> None <->
        value_captured ts = true \/ exists k, ts = [k] /\ 99 < String.length k)) /\
    (st = 0%Z ->
     exists t k ts r,
       tokens (cstr buf) = t :: k :: ts /\
       snd (parse_request (Some buf) (Some r0)) = Some r /\
       cmd r = command_of t /\ cmd r <> CMD_INVALID /\
       cstr (key r) = stake 99 k /\ cstr (key r) <> "" /\
       (cmd r = CMD_SET -> cstr (value r) <> "")).
Proof.
  intros buf r0 st. subst st.
  destruct (parse_request_spec buf r0) as [Hst Hok].
  split; [| split; [| split; [apply scan_value_by_tokens | exact Hok]]].
  - intros Hfit. destruct Hst as [H | (k & Ht & Hlong & _)]; [exact H |].
    specialize (Hfit k Ht). lia.
  - intros k Ht Hlong.
    assert (Hcl : classify buf = Some MissingValue)
      by (unfold classify; now rewrite Ht).
    assert (H0 : fst (parse_request (Some buf) (Some r0)) = 0%Z).
    { destruct Hst as [H | (_ & _ & _ & _ & H)]; [| exact H].
      rewrite Hcl in H. cbn in H.
      destruct (scan_request_tokens buf "SET" [k] Ht ltac:(simpl; lia)) as [_ [_ Hm]].
      apply Nat.ltb_lt in Hlong. rewrite Hlong in Hm. cbn [orb] in Hm.
      destruct Hm as [Hm _]. revert H. unfold parse_request. rewrite Hm.
      destruct (is_cmd _ CMD_INVALID); [discriminate |].
      destruct (_ && _); [discriminate |].
      rewrite andb_false_r. discriminate. }
    split; [exact Hcl |]. split; [exact H0 |].
    destruct (Hok H0) as (t & k' & ts & r & Ht' & Hr & Hcmd & _ & Hkey & _).
    rewrite Ht in Ht'.
    assert (t = "SET") by congruence. assert (k' = k) by congruence.
    assert (ts = []) by congruence. subst t k' ts.
    destruct (scan_request_long_key buf "SET" k [] Ht ltac:(simpl; lia) Hlong)
      as [more Hmore].
    exists r, more. split; [exact Hr |]. split; [exact Hcmd |]. split; [exact Hkey |].
    destruct (parse_request_fields buf r0) as [c Hf]. rewrite Hr in Hf.
    assert (Hv : value r = assign (zeros BUFFER_SIZE) (sc_value (scan_request buf)))
      by (now inversion Hf).
    rewrite Hv, Hmore.
    destruct (scan_request_bounds buf) as (_ & _ & Bv & _).
    destruct (Bv _ Hmore) as (_ & _ & _ & Hn). apply sall_not_nul in Hn.
    now apply cstr_assign.
Qed.

End Classification.

(** ** The connection handler (server2.c) *)

Section ParseFailure.

Import Server2.

Lemma read_data c count w data :
  incoming c = RdBytes data ->
  read c count w
  = (Z.of_nat (String.length (stake count data)), stake count data,
     emit (EvRead (fd c)) w).
Proof. intros H. unfold read. now rewrite H. Qed.

(** handle_client once the read has delivered at least one byte. *)
Lemma handle_client_data c w data :
  incoming c = RdBytes data -> stake (BUFFER_SIZE - 1) data <> "" ->
  let buffer := poke (zeros BUFFER_SIZE) (stake (BUFFER_SIZE - 1) data) in
  let w1 := emit (EvRead (fd c)) w in
  let st := fst (parse_request (Some buffer) (Some req_uninit)) in
  exists req,
    snd (parse_request (Some buffer) (Some req_uninit)) = Some req /\
    handle_client c w =
      if negb (st =? 0)%Z
      then close (fd c) (snd (write_all c (parse_error_msg st)
                                (strlen (parse_error_msg st)) w1))
      else close (fd c) (run_request c req w1).
Proof.
  intros Hin Hne buffer w1 st.
  destruct (parse_request_fields buffer req_uninit) as [cm Hf].
  eexists. split; [exact Hf |].
  unfold handle_client. rewrite (read_data _ _ _ _ Hin).
  assert (Hpos : (Z.of_nat (String.length (stake (BUFFER_SIZE - 1) data)) <=? 0)%Z = false).
  { apply Z.leb_gt. destruct (stake (BUFFER_SIZE - 1) data); [congruence | simpl; lia]. }
  rewrite Hpos. fold buffer. fold w1.
  destruct (parse_request (Some buffer) (Some req_uninit)) as [st' r'] eqn:E.
  cbn [snd] in Hf. subst r'. subst st. cbn [fst]. reflexivity.
Qed.

(** C4, as stated, fails.  An input without any token (a lone newline) is
    classified as empty, an input "FOO" as unknown command, and the handler
    answers both with the same text, "ERROR: Comando invalido\n"; the same
    holds of the statuses -2 and -3 in general.  (An input of no byte at all
    is a failed read: it gets no answer.) *)
Lemma empty_and_unknown_share_a_message :
  let w := blank in
  let c0 := client 4 "" in
  let c1 := client 4 LF in
  let c2 := client 4 "FOO" in
  classify LF = Some Empty /\
  classify "FOO" = Some UnknownCommand /\
  sent 4 (log (handle_client c0 w)) = "" /\
  sent 4 (log (handle_client c1 w)) = MSG_COMANDO_INVALIDO /\
  sent 4 (log (handle_client c2 w)) = MSG_COMANDO_INVALIDO /\
  parse_error_msg (status_of (Some Empty))
  = parse_error_msg (status_of (Some UnknownCommand)).
Proof. repeat split; now vm_compute. Qed.

Lemma status_of_classify_cases buf :
  let st := status_of (classify buf) in
  st = 0%Z \/
  ((classify buf = Some Empty \/ classify buf = Some UnknownCommand)
   /\ parse_error_msg st = MSG_COMANDO_INVALIDO) \/
  (classify buf = Some MissingKey /\ parse_error_msg st = MSG_FALTA_CLAVE) \/
  (classify buf = Some MissingValue /\ parse_error_msg st = MSG_FALTA_VALOR).
Proof.
  destruct (classify buf) as [[]|]; cbn; auto 6.
Qed.

(** C4, amended.  When the parse of what was read fails, handle_client
    writes (through write_all) the message chosen by the status and closes
    the socket.  The message is one of three pairwise-distinct texts: the
    invalid-command text for an input without token and for an unknown
    command alike, the missing-key text, the missing-value text.  The fourth
    text, "ERROR: Formato invalido\n", differs from the three and is never
    chosen: it stands for status -1, which parse_request returns only for a
    NULL argument. *)
Theorem parse_failure_message :
  forall (c : Conn) (w : World) (data : string),
    incoming c = RdBytes data ->
    stake (BUFFER_SIZE - 1) data <> "" ->
    let buffer := poke (zeros BUFFER_SIZE) (stake (BUFFER_SIZE - 1) data) in
    let st := fst (parse_request (Some buffer) (Some req_uninit)) in
    st <> 0%Z ->
    handle_client c w
    = close (fd c) (snd (write_all c (parse_error_msg st)
                           (strlen (parse_error_msg st))
                           (emit (EvRead (fd c)) w))) /\
    (((classify buffer = Some Empty \/ classify buffer = Some UnknownCommand)
      /\ parse_error_msg st = MSG_COMANDO_INVALIDO) \/
     (classify buffer = Some MissingKey /\ parse_error_msg st = MSG_FALTA_CLAVE) \/
     (classify buffer = Some MissingValue /\ parse_error_msg st = MSG_FALTA_VALOR)) /\
    parse_error_msg st <> MSG_FORMATO_INVALIDO /\
    MSG_COMANDO_INVALIDO <> MSG_FALTA_CLAVE /\
    MSG_COMANDO_INVALIDO <> MSG_FALTA_VALOR /\
    MSG_FALTA_CLAVE <> MSG_FALTA_VALOR /\
    fst (parse_request None (Some req_uninit)) = (-1)%Z /\
    parse_error_msg (-1) = MSG_FORMATO_INVALIDO.
Proof.
  intros c w data Hin Hne buffer st Hst.
  destruct (handle_client_data c w data Hin Hne) as (req & _ & Hh).
  fold buffer in Hh. fold st in Hh.
  assert (E : negb (st =? 0)%Z = true)
    by (apply negb_true_iff, Z.eqb_neq; exact Hst).
  rewrite E in Hh. split; [exact Hh |].
  assert (Hcl : st = status_of (classify buffer)).
  { destruct (parse_request_spec buffer req_uninit)
      as [[H | (k & _ & _ & _ & H)] _]; [exact H | contradiction]. }
  pose proof (status_of_classify_cases buffer) as Hc. cbv zeta in Hc.
  rewrite <- Hcl in Hc.
  destruct Hc as [Hc | Hc]; [congruence |].
  split; [exact Hc |].
  split.
  { destruct Hc as [[_ ->] | [[_ ->] | [_ ->]]]; discriminate. }
  repeat (split; [discriminate |]). split; reflexivity.
Qed.

Lemma parse_failure_message_witness :
  let c := {| fd := 4%Z; incoming := RdBytes ("GET" ++ LF); outgoing := [] |} in
  let w := blank in
  handle_client c w
  = close 4%Z (snd (write_all c MSG_FALTA_CLAVE (strlen MSG_FALTA_CLAVE)
                      (emit (EvRead 4%Z) w))).
Proof.
  intros c w.
  refine (proj1 (parse_failure_message c w ("GET" ++ LF) eq_refl _ _)).
  - vm_compute. discriminate.
  - vm_compute. discriminate.
Defined.

(** The scenarios of the specification, one connection after the other:
    SET greeting, GET greeting, GET missing, DEL greeting, GET greeting, a
    key with a path in it, an unknown command. *)
Example scenarios :
  let w1 := handle_client (client 4 ("SET greeting hello world" ++ LF)) blank in
  let w2 := handle_client (client 5 ("GET greeting" ++ LF)) w1 in
  let w3 := handle_client (client 6 ("GET missing" ++ LF)) w2 in
  let w4 := handle_client (client 7 ("DEL greeting" ++ LF)) w3 in
  let w5 := handle_client (client 8 ("GET greeting" ++ LF)) w4 in
  let w6 := handle_client (client 9 ("SET ../etc/passwd x" ++ LF)) w5 in
  let w7 := handle_client (client 10 ("PUT a b" ++ LF)) w6 in
  sent 4 (log w7) = "OK" ++ LF /\
  sent 5 (log w7) = "OK" ++ LF ++ "hello world" ++ LF /\
  sent 6 (log w7) = "NOTFOUND" ++ LF /\
  sent 7 (log w7) = "OK" ++ LF /\
  sent 8 (log w7) = "NOTFOUND" ++ LF /\
  sent 9 (log w7) = "ERROR: Clave invalida" ++ LF /\
  sent 10 (log w7) = "ERROR: Comando invalido" ++ LF /\
  disk w7 = ∅.
Proof. repeat split; now vm_compute. Qed.

End ParseFailure.

(** ** Sending the response *)

Section Sending.

Import Server2.





End Sending.

(** ** What a connection adds to the log *)

Section LogFacts.

Import Server2.

Lemma grows_refl w : grows w w.
Proof. exists []. now rewrite app_nil_r. Qed.

Lemma grows_trans w1 w2 w3 : grows w1 w2 -> grows w2 w3 -> grows w1 w3.
Proof.
  intros (l1 & H1 & F1) (l2 & H2 & F2). exists (l1 ++ l2)%list. split.
  - now rewrite H2, H1, <- List.app_assoc.
  - now rewrite List.filter_app, F1, F2.
Qed.

Lemma grows_emit e w : is_accept e = false -> grows w (emit e w).
Proof. intros H. exists [e]. split; [reflexivity |]. simpl. now rewrite H. Qed.

Lemma grows_set_disk d w : grows w (set_disk d w).
Proof. exists []. now rewrite app_nil_r. Qed.

Lemma grows_emit_set_disk e d w : is_accept e = false -> grows w (emit e (set_disk d w)).
Proof.
  intros H. eapply grows_trans; [apply grows_set_disk | now apply grows_emit].
Qed.

Lemma grows_fopen_w path w : grows w (snd (fopen_w path w)).
Proof.
  unfold fopen_w. destruct (disk w !! path) as [f|]; [destruct (writable f) |];
    cbn [snd]; first [now apply grows_emit_set_disk | now apply grows_emit].
Qed.

Lemma grows_fopen_r path w : grows w (snd (fopen_r path w)).
Proof.
  unfold fopen_r. destruct (disk w !! path); cbn [snd]; now apply grows_emit.
Qed.

Lemma grows_fputs s fp w : grows w (fputs s fp w).
Proof.
  unfold fputs. destruct (disk w !! fp);
    first [now apply grows_emit_set_disk | now apply grows_emit].
Qed.

Lemma grows_fread n fp w : grows w (snd (fread n fp w)).
Proof.
  unfold fread. destruct (disk w !! fp); cbn [snd]; now apply grows_emit.
Qed.

Lemma grows_remove path w : grows w (remove path w).
Proof. unfold remove. now apply grows_emit_set_disk. Qed.

Lemma writes_not_accept fd l :
  Forall (is_write_on fd) l -> List.filter is_accept l = [].
Proof.
  induction 1 as [|e l [d ->] _ IH]; [reflexivity | exact IH].
Qed.

Lemma grows_write_all c buf len w : grows w (snd (write_all c buf len w)).
Proof.
  unfold write_all.
  pose proof (write_loop_spec (fd c) (outgoing c) (stake len buf) w) as H.
  cbv zeta in H. destruct (write_loop _ _ _ _) as [ok w1].
  destruct H as [_ (l & Hl & Hw & _)]. cbn [snd] in *.
  exists l. split; [exact Hl | now apply writes_not_accept with (fd c)].
Qed.

Lemma grows_handle_set req resp cap w : grows w (snd (handle_set req resp cap w)).
Proof.
  unfold handle_set. destruct (negb _); [apply grows_refl |].
  pose proof (grows_fopen_w (cstr (key req)) w) as H.
  destruct (fopen_w (cstr (key req)) w) as [[fp|] w1]; cbn [snd] in *; [| exact H].
  eapply grows_trans; [exact H |].
  eapply grows_trans; [apply grows_fputs | now apply grows_emit].
Qed.

Lemma grows_handle_get req resp cap w : grows w (snd (handle_get req resp cap w)).
Proof.
  unfold handle_get. destruct (negb _); [apply grows_refl |].
  pose proof (grows_fopen_r (cstr (key req)) w) as H.
  destruct (fopen_r (cstr (key req)) w) as [[fp|] w1]; cbn [snd] in *; [| exact H].
  pose proof (grows_fread (BUFFER_SIZE - 1) fp w1) as H'.
  destruct (fread (BUFFER_SIZE - 1) fp w1) as [bytes w2]. cbn [snd] in *.
  eapply grows_trans; [exact H |].
  eapply grows_trans; [exact H' | now apply grows_emit].
Qed.

Lemma grows_handle_del req resp cap w : grows w (snd (handle_del req resp cap w)).
Proof.
  unfold handle_del. destruct (negb _); [apply grows_refl | apply grows_remove].
Qed.

Lemma grows_run_request c req w : grows w (run_request c req w).
Proof.
  unfold run_request.
  destruct (cmd req).
  - apply grows_write_all.
  - pose proof (grows_handle_set req (zeros BUFFER_SIZE) BUFFER_SIZE w) as H.
    destruct (handle_set _ _ _ _) as [r w1]. cbn [snd] in H.
    eapply grows_trans; [exact H | apply grows_write_all].
  - pose proof (grows_handle_get req (zeros BUFFER_SIZE) BUFFER_SIZE w) as H.
    destruct (handle_get _ _ _ _) as [r w1]. cbn [snd] in H.
    eapply grows_trans; [exact H | apply grows_write_all].
  - pose proof (grows_handle_del req (zeros BUFFER_SIZE) BUFFER_SIZE w) as H.
    destruct (handle_del _ _ _ _) as [r w1]. cbn [snd] in H.
    eapply grows_trans; [exact H | apply grows_write_all].
Qed.

(** handle_client reads once, never calls accept, and closes the socket
    last, on every path. *)
Lemma handle_client_log c w :
  exists l,
    log (handle_client c w) = (log w ++ EvRead (fd c) :: l ++ [EvClose (fd c)])%list
    /\ List.filter is_accept l = [].
Proof.
  assert (Hclose : forall w1, grows (emit (EvRead (fd c)) w) w1 ->
            exists l, log (close (fd c) w1)
                      = (log w ++ EvRead (fd c) :: l ++ [EvClose (fd c)])%list
                      /\ List.filter is_accept l = []).
  { intros w1 (l & Hl & Hf). exists l. split; [| exact Hf].
    unfold close, emit at 1. cbn [log]. rewrite Hl. unfold emit. cbn [log].
    rewrite <- !List.app_assoc. reflexivity. }
  unfold handle_client, read.
  destruct (incoming c) as [e | data].
  - change (-1 <=? 0)%Z with true. cbv iota beta.
    apply Hclose. now apply grows_emit.
  - cbv iota beta. destruct (_ <=? 0)%Z.
    + apply Hclose. now apply grows_emit.
    + destruct (parse_request _ _) as [st [req|]].
      * destruct (negb (st =? 0)%Z); apply Hclose;
          [apply grows_write_all | apply grows_run_request].
      * apply Hclose, grows_refl.
Qed.

Lemma accepts_app l1 l2 : accepts (l1 ++ l2) = accepts l1 + accepts l2.
Proof. unfold accepts. now rewrite List.filter_app, List.length_app. Qed.

Lemma accepts_handle_client c w : accepts (log (handle_client c w)) = accepts (log w).
Proof.
  destruct (handle_client_log c w) as (l & Hl & Hf). rewrite Hl.
  rewrite accepts_app. unfold accepts at 2. cbn [List.filter is_accept].
  rewrite List.filter_app, Hf. simpl. lia.
Qed.

End LogFacts.

(** ** The accept loop (server2.c) *)

Section Loop.

Import Server2.

Lemma serve_stopped fd steps w : serve fd steps true w = shutdown fd w.
Proof. now destruct steps. Qed.

(** While no SIGINT is delivered every step is taken: the loop is still
    running after them, having returned from accept once per step. *)
Lemma serve_quiet fd quiet :
  Forall (fun st => has_sig st = false) quiet ->
  forall w,
  exists w1,
    serve fd quiet false w = Running w1 /\
    accepts (log w1) = accepts (log w) + List.length quiet /\
    forall more, serve fd (quiet ++ more) false w = serve fd more false w1.
Proof.
  induction 1 as [|st quiet Hst _ IH]; intros w.
  - exists w. split; [reflexivity |]. split; [simpl; lia | reflexivity].
  - unfold has_sig in Hst. apply orb_false_iff in Hst as [Hs1 Hs2].
    destruct (accepted st) as [e | c] eqn:Ea.
    + destruct (IH (perror "accept" (emit (EvAccept false) w))) as (w1 & Hr & Hc & Hm).
      exists w1. split; [| split].
      * cbn [serve]. rewrite Hs1, Hs2, Ea, andb_false_r. exact Hr.
      * rewrite Hc. unfold perror, emit. cbn [log]. rewrite !accepts_app.
        cbn. lia.
      * intros more. cbn [serve app]. rewrite Hs1, Hs2, Ea, andb_false_r. apply Hm.
    + destruct (IH (handle_client c (emit (EvAccept true) w))) as (w1 & Hr & Hc & Hm).
      exists w1. split; [| split].
      * cbn [serve]. rewrite Hs1, Hs2, Ea. exact Hr.
      * rewrite Hc, accepts_handle_client. unfold emit. cbn [log].
        rewrite accepts_app. cbn. lia.
      * intros more. cbn [serve app]. rewrite Hs1, Hs2, Ea. apply Hm.
Qed.

(** The loop ends only through the shutdown path, hence with status 0 and
    only once the flag is set. *)
Lemma serve_exit fd steps :
  forall g w status w',
    serve fd steps g w = Exited status w' ->
    status = 0%Z /\ (g = true \/ Exists (fun st => has_sig st = true) steps).
Proof.
  induction steps as [|st steps IH]; intros g w status w'.
  - destruct g; cbn; [intros [= <- _]; auto | discriminate].
  - destruct g; [cbn; intros [= <- _]; auto |].
    cbn [serve]. unfold has_sig.
    destruct (accepted st) as [e | c].
    + destruct ((e =? EINTR)%Z && _) eqn:Eb.
      * intros [= <- _]. split; [reflexivity |]. right. left.
        apply andb_true_iff in Eb as [_ Eb].
        destruct (sig_in_accept st); [reflexivity | discriminate].
      * intros H. destruct (IH _ _ _ _ H) as [Hs [Hg | Hx]];
          (split; [exact Hs |]); right; [left | now right].
        destruct (sig_after st); [apply orb_true_r |].
        destruct (sig_in_accept st); [reflexivity | discriminate].
    + intros H. destruct (IH _ _ _ _ H) as [Hs [Hg | Hx]];
        (split; [exact Hs |]); right; [left | now right].
      destruct (sig_after st); [apply orb_true_r |].
      destruct (sig_in_accept st); [reflexivity | discriminate].
Qed.

(** The step during which SIGINT arrives is completed, then the loop ends. *)
Lemma serve_signalled fd st rest w :
  has_sig st = true ->
  serve fd (st :: rest) false w
  = shutdown fd
      match accepted st with
      | AccConn c => handle_client c (emit (EvAccept true) w)
      | AccFail e =>
          if (e =? EINTR)%Z && sig_in_accept st
          then emit (EvAccept false) w
          else perror "accept" (emit (EvAccept false) w)
      end.
Proof.
  unfold has_sig. intros Hs. cbn [serve].
  assert (Hg : (if sig_after st
                then on_sigint (if sig_in_accept st then on_sigint false else false)
                else if sig_in_accept st then on_sigint false else false) = true).
  { destruct (sig_after st); [reflexivity |].
    destruct (sig_in_accept st); [reflexivity | discriminate]. }
  destruct (accepted st) as [e | c].
  - destruct (sig_in_accept st); cbn [on_sigint] in *.
    + destruct (e =? EINTR)%Z; cbn [andb]; [reflexivity |].
      rewrite Hg. apply serve_stopped.
    + rewrite andb_false_r, Hg. apply serve_stopped.
  - rewrite Hg. apply serve_stopped.
Qed.

End Loop.

Section Survival.

Import Server2.

Lemma main_started s steps w :
  startup_failed s = false ->
  main s steps w
  = serve (socket_r s) steps false
      (printf ("Servidor clave-valor escuchando en el puerto 5000..." ++ LF) w).
Proof.
  unfold startup_failed, main. intros H.
  apply orb_false_iff in H as [H H4]. apply orb_false_iff in H as [H H3].
  apply orb_false_iff in H as [H1 H2]. now rewrite H1, H2, H3, H4.
Qed.

(** A failure while the listening socket is set up ends the process with
    EXIT_FAILURE before any connection is accepted. *)
Lemma main_startup_failure s steps w :
  startup_failed s = true ->
  exists w', main s steps w = Exited EXIT_FAILURE w' /\ accepts (log w') = accepts (log w).
Proof.
  unfold startup_failed, main. intros H.
  destruct (socket_r s <? 0)%Z;
    [| destruct (setsockopt_r s <? 0)%Z;
       [| destruct (bind_r s <? 0)%Z;
          [| destruct (listen_r s <? 0)%Z; [| discriminate]]]];
    eexists; (split; [reflexivity |]);
    unfold close, perror, emit; cbn [log]; rewrite ?accepts_app; cbn; lia.
Qed.

Lemma handle_client_failed_read c w :
  (exists e, incoming c = RdFail e) \/ incoming c = RdBytes "" ->
  handle_client c w = close (fd c) (perror "read" (emit (EvRead (fd c)) w)).
Proof.
  intros [[e H] | H]; unfold handle_client, read; now rewrite H.
Qed.

Lemma handle_set_refused req resp w f :
  clave_valida (Some (key req)) = true ->
  disk w !! cstr (key req) = Some f -> writable f = false ->
  handle_set req resp BUFFER_SIZE w
  = (respond resp BUFFER_SIZE MSG_NO_SE_PUDO_CREAR,
     emit (EvFopen (cstr (key req)) "w" false) w).
Proof.
  intros Hv Hf Hw. unfold handle_set, fopen_w. now rewrite Hv, Hf, Hw.
Qed.

(** C5, as stated, fails for servidor.c.  Its handle_command calls
    exit(EXIT_FAILURE) when the read returns 0 (the peer closed without
    sending) or fails, and when SET cannot create the file: the process ends
    and the connection that follows is never accepted. *)
Lemma servidor_exits_on_errors :
  let w := {| disk := {[ "k" := {| content := "old"; writable := false |} ]};
              log := [] |} in
  let silent := {| fd := 4%Z; incoming := RdBytes ""; outgoing := [] |} in
  let broken := {| fd := 4%Z; incoming := RdFail 104; outgoing := [] |} in
  let set_k := {| fd := 4%Z; incoming := RdBytes "SET k v"; outgoing := [] |} in
  let next := AccConn {| fd := 5%Z; incoming := RdBytes "GET k"; outgoing := [] |} in
  (exists w1, Servidor.serve zero_junk [AccConn silent; next] w
              = Some (Exited EXIT_FAILURE w1) /\ accepts (log w1) = 1) /\
  (exists w2, Servidor.serve zero_junk [AccConn broken; next] w
              = Some (Exited EXIT_FAILURE w2) /\ accepts (log w2) = 1) /\
  (exists w3, Servidor.serve zero_junk [AccConn set_k; next] w
              = Some (Exited EXIT_FAILURE w3) /\ accepts (log w3) = 1).
Proof.
  repeat split; eexists; (split; [vm_compute; reflexivity | now vm_compute]).
Qed.

(** C5, amended.  In server2.c, once the listening socket is set up, no
    failure on a connection ends the process: as long as no SIGINT is
    delivered and no write raises SIGPIPE, the loop takes every step of the
    environment, whatever the reads, the writes, the storage calls and
    accept return, and is then waiting in accept again.  In particular, a
    read that fails or returns 0 only makes handle_client report it and
    close that socket, nothing being sent; and a file that cannot be opened
    for writing makes handle_set answer "ERROR: No se pudo crear\n" and
    leave the disk as it was.  (A write on a connection that the peer has
    reset raises SIGPIPE, for which server2.c installs no handler: nothing
    is stated about it.) *)
Theorem server2_outlives_errors :
  forall (s : Startup) (steps : list Step) (w : World),
    startup_failed s = false ->
    Forall (fun st => has_sig st = false) steps ->
    Forall (fun st => peer_listens st = true) steps ->
    (exists w', main s steps w = Running w' /\
                accepts (log w') = accepts (log w) + List.length steps) /\
    (forall c w0,
       (exists e, incoming c = RdFail e) \/ incoming c = RdBytes "" ->
       handle_client c w0 = close (fd c) (perror "read" (emit (EvRead (fd c)) w0)) /\
       sent (fd c) (log (handle_client c w0)) = sent (fd c) (log w0)) /\
    (forall req resp f w0,
       clave_valida (Some (key req)) = true ->
       disk w0 !! cstr (key req) = Some f -> writable f = false ->
       cstr (fst (handle_set req resp BUFFER_SIZE w0)) = MSG_NO_SE_PUDO_CREAR /\
       disk (snd (handle_set req resp BUFFER_SIZE w0)) = disk w0).
Proof.
  intros s steps w Hs Hq _. split; [| split].
  - rewrite (main_started _ _ _ Hs).
    destruct (serve_quiet (socket_r s) steps Hq
                (printf ("Servidor clave-valor escuchando en el puerto 5000..." ++ LF) w))
      as (w' & Hr & Hc & _).
    exists w'. split; [exact Hr |]. rewrite Hc.
    unfold printf, emit. cbn [log]. rewrite accepts_app. cbn. lia.
  - intros c w0 H. rewrite (handle_client_failed_read c w0 H).
    split; [reflexivity |]. unfold close, perror, emit. cbn [log].
    rewrite !sent_app. cbn. now rewrite !app_empty_r.
  - intros req resp f w0 Hv Hf Hw. rewrite (handle_set_refused req resp w0 f Hv Hf Hw).
    cbn [fst snd]. split; [| reflexivity].
    apply respond_cstr; [vm_compute; lia | reflexivity].
Qed.

Lemma server2_outlives_errors_witness :
  let w := {| disk := {[ "k" := {| content := "old"; writable := false |} ]};
              log := [] |} in
  let silent := {| fd := 4%Z; incoming := RdBytes ""; outgoing := [] |} in
  let broken := {| fd := 4%Z; incoming := RdFail 104; outgoing := [] |} in
  let set_k := {| fd := 4%Z; incoming := RdBytes "SET k v";
                  outgoing := [WrFail EINTR; WrBytes 2; WrFail 105] |} in
  let bad := {| fd := 4%Z; incoming := RdBytes "PUT ../k"; outgoing := [] |} in
  let quiet c := {| sig_in_accept := false; accepted := c; sig_after := false |} in
  let steps := [quiet (AccConn silent); quiet (AccConn broken);
                quiet (AccFail 24); quiet (AccConn set_k); quiet (AccConn bad)] in
  let s := {| socket_r := 3; setsockopt_r := 0; bind_r := 0; listen_r := 0 |} in
  exists w', main s steps w = Running w' /\
             accepts (log w') = accepts (log w) + List.length steps.
Proof.
  intros w silent broken set_k bad quiet steps s.
  refine (proj1 (server2_outlives_errors s steps w _ _ _)).
  - reflexivity.
  - repeat constructor.
  - repeat constructor.
Defined.

End Survival.

Section Shutdown.

Import Server2.

(** C9.  The accept loop ends exactly when the flag set by on_sigint is
    seen.  While no SIGINT is delivered the loop keeps running.  At the
    first step during which one is delivered, the step is finished: an
    accepted connection is handled to its close, a failed accept is
    reported, unless it failed with EINTR after the signal, in which case
    the flag is seen at once.  Then the loop ends without another call of
    accept, whatever the environment had in store; the listening socket is
    closed, the closing line is printed and main returns 0.  With the flag
    already set, the loop ends before calling accept at all. *)
Theorem loop_ends_when_flag_is_seen :
  forall (fd : Z) (quiet : list Step) (st : Step) (rest : list Step) (w : World),
    Forall (fun s => has_sig s = false) quiet ->
    has_sig st = true ->
    exists w1 w2,
      serve fd quiet false w = Running w1 /\
      accepts (log w1) = accepts (log w) + List.length quiet /\
      w2 = match accepted st with
           | AccConn c => handle_client c (emit (EvAccept true) w1)
           | AccFail e =>
               if (e =? EINTR)%Z && sig_in_accept st
               then emit (EvAccept false) w1
               else perror "accept" (emit (EvAccept false) w1)
           end /\
      serve fd (quiet ++ st :: rest) false w
      = Exited 0%Z (printf ("Cerrando servidor ordenadamente." ++ LF) (close fd w2)) /\
      accepts (log (printf ("Cerrando servidor ordenadamente." ++ LF) (close fd w2)))
      = accepts (log w1) + 1 /\
      (forall c, accepted st = AccConn c ->
         exists l,
           log (printf ("Cerrando servidor ordenadamente." ++ LF) (close fd w2))
           = (log w1 ++ EvAccept true :: EvRead (OS.fd c) :: l
              ++ [EvClose (OS.fd c); EvClose fd;
                  EvPrintf ("Cerrando servidor ordenadamente." ++ LF)])%list
           /\ List.filter is_accept l = []) /\
      (forall steps w0,
         serve fd steps true w0
         = Exited 0%Z (printf ("Cerrando servidor ordenadamente." ++ LF) (close fd w0))).
Proof.
  intros fd quiet st rest w Hq Hs.
  destruct (serve_quiet fd quiet Hq w) as (w1 & Hr & Hc & Hm).
  eexists w1, _. split; [exact Hr |]. split; [exact Hc |].
  split; [reflexivity |]. split; [| split; [| split]].
  - rewrite Hm. now rewrite (serve_signalled fd st rest w1 Hs).
  - unfold printf, close. unfold emit at 1 2. cbn [log]. rewrite !accepts_app.
    destruct (accepted st) as [e | c].
    + destruct (_ && _); unfold perror, emit; cbn [log]; rewrite ?accepts_app;
        cbn; lia.
    + rewrite accepts_handle_client. unfold emit. cbn [log].
      rewrite accepts_app. cbn. lia.
  - intros c Hc'. rewrite Hc'.
    destruct (handle_client_log c (emit (EvAccept true) w1)) as (l & Hl & Hf).
    exists l. split; [| exact Hf].
    unfold printf, close. unfold emit at 1 2. cbn [log]. rewrite Hl.
    unfold emit. cbn [log]. rewrite <- !List.app_assoc. cbn [app].
    rewrite <- List.app_assoc. reflexivity.
  - intros steps w0. apply serve_stopped.
Qed.

Lemma loop_ends_when_flag_is_seen_witness :
  let w := blank in
  let c := {| fd := 4%Z; incoming := RdBytes "GET k"; outgoing := [] |} in
  let quiet := [{| sig_in_accept := false; accepted := AccFail 24; sig_after := false |}] in
  let st := {| sig_in_accept := false; accepted := AccConn c; sig_after := true |} in
  let rest := [{| sig_in_accept := false; accepted := AccConn c; sig_after := false |}] in
  exists w2, serve 3 (quiet ++ st :: rest) false w
             = Exited 0%Z (printf ("Cerrando servidor ordenadamente." ++ LF) (close 3 w2)).
Proof.
  intros w c quiet st rest.
  destruct (loop_ends_when_flag_is_seen 3 quiet st rest w) as (w1 & w2 & _ & _ & _ & H & _).
  - repeat constructor.
  - reflexivity.
  - exists w2. exact H.
Defined.

End Shutdown.

(** * Further properties of the code *)

(** ** The validators *)

Section Validators.

Import Server2.

(** X1.  clave_valida of server2.c accepts exactly the keys (C strings)
    that are not empty and hold none of '/', '\', '.', ' '; every other
    byte, white space other than the space included, is accepted.  A NULL
    pointer is refused. *)
Theorem clave_valida_accepts_exactly :
  forall a : string,
    (clave_valida (Some a) = true <->
     cstr a <> "" /\ mem "/" (cstr a) = false /\ mem "\" (cstr a) = false
     /\ mem "." (cstr a) = false /\ mem " " (cstr a) = false)
    /\ clave_valida None = false.
Proof.
  intros a. split; [| reflexivity]. rewrite clave_valida_spec. unfold forbidden.
  rewrite andb_true_iff, !negb_true_iff, !orb_false_iff.
  rewrite String.eqb_neq. tauto.
Qed.

Lemma servidor_clave_loop a :
  Servidor.clave_loop a = if clave_scan a then 1%Z else 0%Z.
Proof.
  induction a as [|c a IH]; simpl; [reflexivity |].
  destruct (Ascii.eqb c NUL); [reflexivity |].
  destruct (_ || _); [reflexivity | exact IH].
Qed.

Lemma servidor_clave_valida a :
  Servidor.clave_valida a = if clave_valida (Some a) then 1%Z else 0%Z.
Proof.
  unfold Servidor.clave_valida, clave_valida, strlen.
  destruct a as [|c a]; [reflexivity |].
  rewrite servidor_clave_loop. simpl cstr.
  destruct (Ascii.eqb c NUL); reflexivity.
Qed.

(** X2.  The validator of servidor.c returns 0 or 1, and 1 exactly on the
    arrays that the validator of server2.c accepts. *)
Theorem validators_agree :
  forall a : string,
    (Servidor.clave_valida a = 1%Z <-> clave_valida (Some a) = true) /\
    (Servidor.clave_valida a = 0%Z <-> clave_valida (Some a) = false).
Proof.
  intros a. rewrite servidor_clave_valida.
  destruct (clave_valida (Some a)); split; split; congruence.
Qed.

End Validators.

(** ** The handlers on the disk *)

Section HandlersOnDisk.

Import Server2.

Lemma cstr_stake n s : cstr (stake n s) = stake n (cstr s).
Proof.
  revert n; induction s as [|c s IH]; intros [|n]; simpl; try reflexivity.
  - now destruct (Ascii.eqb c NUL).
  - destruct (Ascii.eqb c NUL); [reflexivity |]. simpl. now rewrite IH.
Qed.

Lemma handle_get_disk req resp cap w : disk (snd (handle_get req resp cap w)) = disk w.
Proof.
  unfold handle_get, fopen_r, fread. destruct (negb _); [reflexivity |].
  destruct (disk w !! cstr (key req)) eqn:E; cbn [disk emit snd]; [| reflexivity].
  rewrite E. reflexivity.
Qed.

(** X3.  handle_get never changes the disk, and for a valid key it answers
    "NOTFOUND\n" exactly when the key has no file. *)
Theorem get_reads_only :
  forall (req : Request) (resp : string) (w : World),
    disk (snd (handle_get req resp BUFFER_SIZE w)) = disk w /\
    (clave_valida (Some (key req)) = true ->
     (disk w !! cstr (key req) = None <->
      cstr (fst (handle_get req resp BUFFER_SIZE w)) = MSG_NOTFOUND)).
Proof.
  intros req resp w. split; [apply handle_get_disk |]. intros Hv. split.
  - now apply handle_get_absent.
  - destruct (disk w !! cstr (key req)) as [f|] eqn:E; [| reflexivity].
    rewrite (handle_get_reads req resp w f Hv E). discriminate.
Qed.

Lemma get_reads_only_witness :
  disk blank !! "k" = None <->
  cstr (fst (handle_get {| cmd := CMD_GET; key := poke (zeros 100) "k";
                           value := zeros BUFFER_SIZE |}
               (zeros BUFFER_SIZE) BUFFER_SIZE blank)) = MSG_NOTFOUND.
Proof.
  refine (proj2 (get_reads_only _ (zeros BUFFER_SIZE) blank) _). reflexivity.
Defined.

(** X4.  For a valid key that has a file, whatever its bytes, handle_get
    answers "OK\n", then the bytes of the file up to its first NUL and at
    most BUFFER_SIZE-5 = 1019 of them, then "\n"; the file is opened, read
    once and closed. *)
Theorem get_returns_bounded_content :
  forall (req : Request) (resp : string) (w : World) (f : File),
    clave_valida (Some (key req)) = true ->
    disk w !! cstr (key req) = Some f ->
    cstr (fst (handle_get req resp BUFFER_SIZE w))
    = "OK" ++ LF ++ stake (BUFFER_SIZE - 5) (cstr (content f)) ++ LF /\
    log (snd (handle_get req resp BUFFER_SIZE w))
    = (log w ++ [EvFopen (cstr (key req)) "r" true;
                 EvFread (cstr (key req)) (BUFFER_SIZE - 1);
                 EvFclose (cstr (key req))])%list.
Proof.
  intros req resp w f Hv Hf. split.
  - rewrite (handle_get_reads req resp w f Hv Hf).
    rewrite cstr_app_nul_gen, cstr_stake, stake_stake by (unfold BUFFER_SIZE; lia).
    reflexivity.
  - unfold handle_get. rewrite Hv. cbn [negb]. unfold fopen_r. rewrite Hf.
    unfold fread. cbn [disk emit]. rewrite Hf. unfold fclose, emit. cbn [snd log].
    now rewrite <- !List.app_assoc.
Qed.

Lemma get_returns_bounded_content_witness :
  let w := {| disk := {[ "k" := {| content := "ab" ++ String NUL "cd"; writable := false |} ]};
              log := [] |} in
  cstr (fst (handle_get {| cmd := CMD_GET; key := poke (zeros 100) "k";
                           value := zeros BUFFER_SIZE |}
               (zeros BUFFER_SIZE) BUFFER_SIZE w))
  = "OK" ++ LF ++ stake (BUFFER_SIZE - 5) (cstr ("ab" ++ String NUL "cd")) ++ LF.
Proof.
  intros w.
  refine (proj1 (get_returns_bounded_content _ (zeros BUFFER_SIZE) w
                   {| content := "ab" ++ String NUL "cd"; writable := false |} _ _));
    reflexivity.
Defined.

Lemma handle_set_frame req resp cap w k :
  k <> cstr (key req) ->
  disk (snd (handle_set req resp cap w)) !! k = disk w !! k.
Proof.
  intros Hk. unfold handle_set. destruct (negb _); [reflexivity |].
  unfold fopen_w.
  destruct (disk w !! cstr (key req)) as [f|] eqn:E; [destruct (writable f) |];
    cbn [snd]; try reflexivity;
    unfold fclose, fputs; cbn [disk emit set_disk];
    rewrite lookup_insert_eq; cbn [disk emit set_disk];
    now rewrite !lookup_insert_ne by congruence.
Qed.

Lemma handle_del_frame req resp cap w k :
  k <> cstr (key req) ->
  disk (snd (handle_del req resp cap w)) !! k = disk w !! k.
Proof.
  intros Hk. unfold handle_del. destruct (negb _); [reflexivity |].
  unfold remove. cbn [snd disk emit set_disk].
  now rewrite lookup_delete_ne by congruence.
Qed.

(** X5.  handle_set and handle_del act on the file named by the key and on
    no other: every other name has the same file, or none, before and
    after. *)
Theorem other_keys_untouched :
  forall (req : Request) (resp : string) (cap : nat) (w : World) (k : string),
    k <> cstr (key req) ->
    disk (snd (handle_set req resp cap w)) !! k = disk w !! k /\
    disk (snd (handle_del req resp cap w)) !! k = disk w !! k /\
    disk (snd (handle_get req resp cap w)) !! k = disk w !! k.
Proof.
  intros req resp cap w k Hk.
  split; [now apply handle_set_frame |]. split; [now apply handle_del_frame |].
  now rewrite handle_get_disk.
Qed.

Lemma other_keys_untouched_witness :
  let w := {| disk := {[ "a" := {| content := "1"; writable := true |} ]}; log := [] |} in
  let req := {| cmd := CMD_DEL; key := poke (zeros 100) "b"; value := zeros BUFFER_SIZE |} in
  disk (snd (handle_del req (zeros BUFFER_SIZE) BUFFER_SIZE w)) !! "a" = disk w !! "a".
Proof.
  intros w req.
  refine (proj1 (proj2 (other_keys_untouched req (zeros BUFFER_SIZE) BUFFER_SIZE w "a" _))).
  vm_compute. discriminate.
Defined.

(** X6.  A second SET on a key replaces the value: after two handle_set on
    the same valid key the file holds exactly the second value, and
    handle_get answers with it (its first 1019 bytes). *)
Theorem second_set_replaces :
  forall (r1 r2 rg : Request) (resp : string) (w : World),
    clave_valida (Some (key r1)) = true ->
    cstr (key r2) = cstr (key r1) -> cstr (key rg) = cstr (key r1) ->
    (forall f, disk w !! cstr (key r1) = Some f -> writable f = true) ->
    let w1 := snd (handle_set r1 resp BUFFER_SIZE w) in
    let w2 := snd (handle_set r2 resp BUFFER_SIZE w1) in
    disk w2 !! cstr (key r1)
    = Some {| content := cstr (value r2); writable := true |} /\
    cstr (fst (handle_get rg resp BUFFER_SIZE w2))
    = "OK" ++ LF ++ stake (BUFFER_SIZE - 5) (cstr (value r2)) ++ LF.
Proof.
  intros r1 r2 rg resp w Hv H2 Hg Hw w1 w2.
  destruct (handle_set_stores r1 resp w Hv Hw) as (w1' & E1 & F1).
  assert (Hv2 : clave_valida (Some (key r2)) = true)
    by (now rewrite (clave_valida_cstr _ _ H2)).
  assert (Hvg : clave_valida (Some (key rg)) = true)
    by (now rewrite (clave_valida_cstr _ _ Hg)).
  subst w2 w1. rewrite E1. cbn [snd].
  destruct (handle_set_stores r2 resp w1' Hv2) as (w2' & E2 & F2).
  { rewrite H2, F1. now intros f [= <-]. }
  rewrite E2. cbn [snd]. rewrite H2 in F2. split; [exact F2 |].
  rewrite <- Hg in F2.
  rewrite (handle_get_reads rg resp w2' _ Hvg F2). cbn [content].
  rewrite cstr_app_nul_gen, cstr_stake, cstr_idem, stake_stake
    by (unfold BUFFER_SIZE; lia).
  reflexivity.
Qed.

Lemma second_set_replaces_witness :
  let r v := {| cmd := CMD_SET; key := poke (zeros 100) "k";
                value := poke (zeros BUFFER_SIZE) v |} in
  disk (snd (handle_set (r "new") (zeros BUFFER_SIZE) BUFFER_SIZE
               (snd (handle_set (r "older") (zeros BUFFER_SIZE) BUFFER_SIZE blank))))
    !! cstr (key (r "older"))
  = Some {| content := cstr (value (r "new")); writable := true |}.
Proof.
  intros r.
  refine (proj1 (second_set_replaces (r "older") (r "new") (r "")
                   (zeros BUFFER_SIZE) blank _ _ _ _)); try reflexivity.
  intros f Hf. vm_compute in Hf. discriminate Hf.
Defined.

End HandlersOnDisk.

(** ** The response buffer *)

Section ResponseShape.

Import Server2.

Lemma ends_lf_app_lf s : ends_lf (s ++ LF) = true.
Proof.
  induction s as [|c s IH]; [reflexivity |].
  simpl. destruct (s ++ LF) eqn:E; [| exact IH].
  destruct s; discriminate.
Qed.

Lemma respond_shape response text :
  String.length response = BUFFER_SIZE ->
  String.length text < BUFFER_SIZE -> mem NUL text = false -> ends_lf text = true ->
  let r := respond response BUFFER_SIZE text in
  String.length r = BUFFER_SIZE /\ 1 <= strlen r <= BUFFER_SIZE - 1 /\
  String.get (strlen r) r = Some NUL /\ ends_lf (cstr r) = true.
Proof.
  intros Hr Hl Hn He r. subst r. unfold strlen.
  rewrite (respond_cstr response BUFFER_SIZE text Hl Hn).
  unfold respond, snprintf. change BUFFER_SIZE with (S (BUFFER_SIZE - 1)) at 1.
  cbv iota beta. rewrite stake_all by lia.
  split; [rewrite length_poke; lia |].
  split; [split; [destruct text; [discriminate | simpl; lia] | lia] |].
  split; [apply get_app_nul | exact He].
Qed.

(** The text a handler formats: short of BUFFER_SIZE, without NUL, ending
    in a newline. *)
Lemma handler_text req response w :
  forall h, h = handle_set \/ h = handle_get \/ h = handle_del ->
  exists text,
    fst (h req response BUFFER_SIZE w) = respond response BUFFER_SIZE text /\
    String.length text < BUFFER_SIZE /\ mem NUL text = false /\ ends_lf text = true.
Proof.
  assert (Hfixed : forall text,
            text = MSG_CLAVE_INVALIDA \/ text = MSG_NO_SE_PUDO_CREAR
            \/ text = MSG_OK \/ text = MSG_NOTFOUND ->
            String.length text < BUFFER_SIZE /\ mem NUL text = false /\ ends_lf text = true).
  { intros text [-> | [-> | [-> | ->]]];
      (split; [vm_compute; lia | split; reflexivity]). }
  intros h [-> | [-> | ->]].
  - unfold handle_set. destruct (negb _);
      [eexists; split; [reflexivity | apply Hfixed; auto] |].
    destruct (fopen_w _ _) as [[fp|] w1];
      eexists; (split; [reflexivity | apply Hfixed; auto]).
  - unfold handle_get. destruct (negb _);
      [eexists; split; [reflexivity | apply Hfixed; auto] |].
    destruct (fopen_r _ _) as [[fp|] w1];
      [| eexists; split; [reflexivity | apply Hfixed; auto 6]].
    unfold fread. destruct (disk w1 !! fp) as [f|].
    + eexists. split; [reflexivity |].
      destruct (get_text_ok (content f)) as [Hl Hn]. split; [exact Hl |].
      split; [exact Hn |].
      rewrite <- !app_assoc_s. apply ends_lf_app_lf.
    + eexists. split; [reflexivity |].
      destruct (get_text_ok "") as [Hl Hn]. split; [exact Hl |].
      split; [exact Hn |].
      rewrite <- !app_assoc_s. apply ends_lf_app_lf.
  - unfold handle_del. destruct (negb _);
      eexists; (split; [reflexivity | apply Hfixed; auto]).
Qed.

(** X7.  Whatever the request and the disk, each handler leaves in a
    response array of BUFFER_SIZE bytes a C string of 1 to BUFFER_SIZE-1
    bytes, terminated inside the array and ending in a newline: no answer
    overruns the buffer or loses its final newline, GET on a large file
    included. *)
Theorem responses_fit_the_buffer :
  forall (req : Request) (response : string) (w : World),
    String.length response = BUFFER_SIZE ->
    forall h, h = handle_set \/ h = handle_get \/ h = handle_del ->
    let r := fst (h req response BUFFER_SIZE w) in
    String.length r = BUFFER_SIZE /\ 1 <= strlen r <= BUFFER_SIZE - 1 /\
    String.get (strlen r) r = Some NUL /\ ends_lf (cstr r) = true.
Proof.
  intros req response w Hr h Hh r. subst r.
  destruct (handler_text req response w h Hh) as (text & -> & Hl & Hn & He).
  now apply respond_shape.
Qed.

Lemma responses_fit_the_buffer_witness :
  let w := {| disk := {[ "big" := {| content := fill "x" 5000; writable := true |} ]};
              log := [] |} in
  let req := {| cmd := CMD_GET; key := poke (zeros 100) "big"; value := zeros BUFFER_SIZE |} in
  let r := fst (handle_get req (zeros BUFFER_SIZE) BUFFER_SIZE w) in
  String.length r = BUFFER_SIZE /\ 1 <= strlen r <= BUFFER_SIZE - 1 /\
  String.get (strlen r) r = Some NUL /\ ends_lf (cstr r) = true.
Proof.
  intros w req.
  refine (responses_fit_the_buffer req (zeros BUFFER_SIZE) w _ handle_get _).
  - reflexivity.
  - right; left; reflexivity.
Defined.

End ResponseShape.

(** ** What a connection may do *)

Section ConnectionEffects.

Import Server2.

Lemma extends_refl P w : extends P w w.
Proof. exists []. now rewrite app_nil_r. Qed.

Lemma extends_trans P w1 w2 w3 : extends P w1 w2 -> extends P w2 w3 -> extends P w1 w3.
Proof.
  intros (l1 & H1 & F1) (l2 & H2 & F2). exists (l1 ++ l2)%list. split.
  - now rewrite H2, H1, <- List.app_assoc.
  - now rewrite forallb_app, F1, F2.
Qed.

Lemma extends_emit P e w : P e = true -> extends P w (emit e w).
Proof. intros H. exists [e]. split; [reflexivity |]. simpl. now rewrite H. Qed.

Lemma extends_emit_set_disk P e d w : P e = true -> extends P w (emit e (set_disk d w)).
Proof. intros H. exists [e]. split; [reflexivity |]. simpl. now rewrite H. Qed.

Lemma clave_valida_valid_name a : clave_valida (Some a) = valid_name (cstr a).
Proof. apply clave_valida_spec. Qed.

Lemma write_all_extends c buf len w :
  extends (conn_event (fd c)) w (snd (write_all c buf len w)).
Proof.
  unfold write_all.
  pose proof (write_loop_spec (fd c) (outgoing c) (stake len buf) w) as H.
  cbv zeta in H. destruct (write_loop _ _ _ _) as [ok w1].
  destruct H as [_ (l & Hl & Hw & _)]. cbn [snd] in *.
  exists l. split; [exact Hl |].
  clear Hl. induction Hw as [|e l [d ->] _ IH]; [reflexivity |].
  simpl. now rewrite Z.eqb_refl.
Qed.

Lemma handle_set_extends fd req resp cap w :
  extends (conn_event fd) w (snd (handle_set req resp cap w)).
Proof.
  unfold handle_set. rewrite clave_valida_valid_name.
  destruct (valid_name (cstr (key req))) eqn:Hv; cbn [negb]; [| apply extends_refl].
  assert (Hopen : forall d,
            extends (conn_event fd) w
              (fclose (cstr (key req))
                 (fputs (cstr (value req)) (cstr (key req))
                    (emit (EvFopen (cstr (key req)) "w" true) (set_disk d w))))).
  { intros d.
    apply extends_trans
      with (emit (EvFopen (cstr (key req)) "w" true) (set_disk d w));
      [apply extends_emit_set_disk; exact Hv |].
    unfold fclose.
    eapply extends_trans; [| apply extends_emit; exact Hv].
    unfold fputs. destruct (_ !! _);
      [apply extends_emit_set_disk | apply extends_emit]; exact Hv. }
  unfold fopen_w.
  destruct (disk w !! cstr (key req)) as [f|]; [destruct (writable f) |]; cbn [snd];
    first [apply Hopen | apply extends_emit; exact Hv].
Qed.

Lemma handle_get_extends fd req resp cap w :
  extends (conn_event fd) w (snd (handle_get req resp cap w)).
Proof.
  unfold handle_get. rewrite clave_valida_valid_name.
  destruct (valid_name (cstr (key req))) eqn:Hv; cbn [negb]; [| apply extends_refl].
  unfold fopen_r, fread.
  destruct (disk w !! cstr (key req)) as [f|] eqn:E; cbn [snd disk emit];
    [| apply extends_emit; exact Hv].
  rewrite E. cbn [snd]. unfold fclose.
  apply extends_trans with (emit (EvFopen (cstr (key req)) "r" true) w);
    [apply extends_emit; exact Hv |].
  eapply extends_trans; [| apply extends_emit; exact Hv].
  apply extends_emit; exact Hv.
Qed.

Lemma handle_del_extends fd req resp cap w :
  extends (conn_event fd) w (snd (handle_del req resp cap w)).
Proof.
  unfold handle_del. rewrite clave_valida_valid_name.
  destruct (valid_name (cstr (key req))) eqn:Hv; cbn [negb]; [| apply extends_refl].
  unfold remove. cbn [snd]. apply extends_emit_set_disk. exact Hv.
Qed.

Lemma run_request_extends c req w :
  extends (conn_event (fd c)) w (run_request c req w).
Proof.
  unfold run_request. destruct (cmd req).
  - apply write_all_extends.
  - pose proof (handle_set_extends (fd c) req (zeros BUFFER_SIZE) BUFFER_SIZE w) as H.
    destruct (handle_set _ _ _ _) as [r w1]. cbn [snd] in H.
    eapply extends_trans; [exact H | apply write_all_extends].
  - pose proof (handle_get_extends (fd c) req (zeros BUFFER_SIZE) BUFFER_SIZE w) as H.
    destruct (handle_get _ _ _ _) as [r w1]. cbn [snd] in H.
    eapply extends_trans; [exact H | apply write_all_extends].
  - pose proof (handle_del_extends (fd c) req (zeros BUFFER_SIZE) BUFFER_SIZE w) as H.
    destruct (handle_del _ _ _ _) as [r w1]. cbn [snd] in H.
    eapply extends_trans; [exact H | apply write_all_extends].
Qed.

(** The log of handle_client: the read, then events of the connection, then
    the close. *)
Lemma handle_client_shape c w :
  exists body,
    log (handle_client c w)
    = (log w ++ EvRead (fd c) :: body ++ [EvClose (fd c)])%list /\
    forallb (conn_event (fd c)) body = true.
Proof.
  assert (Hclose : forall w1, extends (conn_event (fd c)) (emit (EvRead (fd c)) w) w1 ->
            exists body, log (close (fd c) w1)
                      = (log w ++ EvRead (fd c) :: body ++ [EvClose (fd c)])%list
                      /\ forallb (conn_event (fd c)) body = true).
  { intros w1 (l & Hl & Hf). exists l. split; [| exact Hf].
    unfold close, emit at 1. cbn [log]. rewrite Hl. unfold emit. cbn [log].
    rewrite <- !List.app_assoc. reflexivity. }
  unfold handle_client, read.
  destruct (incoming c) as [e | data].
  - change (-1 <=? 0)%Z with true. cbv iota beta.
    apply Hclose. now apply extends_emit.
  - cbv iota beta. destruct (_ <=? 0)%Z.
    + apply Hclose. now apply extends_emit.
    + destruct (parse_request _ _) as [st [req|]].
      * destruct (negb (st =? 0)%Z); apply Hclose;
          [apply write_all_extends | apply run_request_extends].
      * apply Hclose, extends_refl.
Qed.

(** X8.  On every path handle_client reads the socket once, first, and
    closes it once, last.  In between it only writes on that socket, reports
    a failed read, or calls the storage on a name that is not empty and holds
    none of '/', '\', '.', ' ': whatever the client sends, no other file
    name is ever opened, written, read or removed, and no other descriptor
    is used. *)
Theorem connection_is_confined :
  forall (c : Conn) (w : World),
  exists body,
    log (handle_client c w)
    = (log w ++ EvRead (fd c) :: body ++ [EvClose (fd c)])%list /\
    forallb (conn_event (fd c)) body = true /\
    (forall p mode ok, In (EvFopen p mode ok) body ->
       p <> "" /\ mem "/" p = false /\ mem "\" p = false
       /\ mem "." p = false /\ mem " " p = false) /\
    (forall p, In (EvRemove p) body ->
       p <> "" /\ mem "/" p = false /\ mem "\" p = false
       /\ mem "." p = false /\ mem " " p = false) /\
    ~ In (EvClose (fd c)) body /\ ~ In (EvRead (fd c)) body.
Proof.
  intros c w. destruct (handle_client_shape c w) as (body & Hl & Hf).
  exists body. split; [exact Hl |]. split; [exact Hf |].
  rewrite forallb_forall in Hf.
  assert (Hname : forall p, valid_name p = true ->
            p <> "" /\ mem "/" p = false /\ mem "\" p = false
            /\ mem "." p = false /\ mem " " p = false).
  { intros p Hp. unfold valid_name, forbidden in Hp.
    apply andb_true_iff in Hp as [H1 H2]. apply negb_true_iff in H1, H2.
    apply String.eqb_neq in H1. rewrite !orb_false_iff in H2. tauto. }
  split; [| split; [| split]].
  - intros p mode ok Hin. apply Hname. exact (Hf _ Hin).
  - intros p Hin. apply Hname. exact (Hf _ Hin).
  - intros Hin. apply Hf in Hin. discriminate.
  - intros Hin. apply Hf in Hin. discriminate.
Qed.

Lemma handler_frame_invalid req resp cap w k :
  valid_name k = false ->
  disk (snd (handle_set req resp cap w)) !! k = disk w !! k /\
  disk (snd (handle_get req resp cap w)) !! k = disk w !! k /\
  disk (snd (handle_del req resp cap w)) !! k = disk w !! k.
Proof.
  intros Hk. destruct (String.eqb k (cstr (key req))) eqn:E.
  - apply String.eqb_eq in E. subst k.
    unfold handle_set, handle_get, handle_del.
    now rewrite clave_valida_valid_name, Hk.
  - apply String.eqb_neq in E.
    split; [now apply handle_set_frame |].
    split; [now rewrite handle_get_disk | now apply handle_del_frame].
Qed.

Lemma run_request_frame_invalid c req w k :
  valid_name k = false -> disk (run_request c req w) !! k = disk w !! k.
Proof.
  intros Hk. unfold run_request.
  destruct (handler_frame_invalid req (zeros BUFFER_SIZE) BUFFER_SIZE w k Hk)
    as (Hs & Hg & Hd).
  destruct (cmd req).
  - now rewrite write_all_disk.
  - destruct (handle_set _ _ _ _) as [r w1]. now rewrite write_all_disk.
  - destruct (handle_get _ _ _ _) as [r w1]. now rewrite write_all_disk.
  - destruct (handle_del _ _ _ _) as [r w1]. now rewrite write_all_disk.
Qed.

(** X9.  Whatever the client sends, handle_client leaves untouched every
    file whose name is empty or holds '/', '\', '.' or a space. *)
Theorem invalid_names_are_out_of_reach :
  forall (c : Conn) (w : World) (k : string),
    k = "" \/ mem "/" k = true \/ mem "\" k = true \/ mem "." k = true
    \/ mem " " k = true ->
    disk (handle_client c w) !! k = disk w !! k.
Proof.
  intros c w k Hbad.
  assert (Hk : valid_name k = false).
  { unfold valid_name, forbidden.
    destruct Hbad as [-> | [H | [H | [H | H]]]]; [reflexivity | | | |];
      rewrite H, ?orb_true_r; apply andb_false_r. }
  unfold handle_client, read.
  destruct (incoming c) as [e | data]; [reflexivity |].
  cbv iota beta. destruct (_ <=? 0)%Z; [reflexivity |].
  destruct (parse_request _ _) as [st [req|]]; [| reflexivity].
  destruct (negb (st =? 0)%Z); unfold close; cbn [disk emit].
  - now rewrite write_all_disk.
  - now rewrite run_request_frame_invalid.
Qed.

Lemma invalid_names_are_out_of_reach_witness :
  let w := {| disk := {[ "../etc/passwd" := {| content := "root"; writable := true |} ]};
              log := [] |} in
  disk (handle_client (client 4 ("DEL ../etc/passwd" ++ LF)) w) !! "../etc/passwd"
  = disk w !! "../etc/passwd".
Proof.
  intros w.
  refine (invalid_names_are_out_of_reach _ w "../etc/passwd" _).
  right; left. reflexivity.
Defined.

(** X10.  A connection whose read fails or returns nothing, or whose input
    does not parse, never reaches the storage: the disk is as before and no
    storage call is made. *)
Theorem no_storage_without_a_request :
  forall (c : Conn) (w : World),
    (exists e, incoming c = RdFail e) \/
    (exists data,
       incoming c = RdBytes data /\
       (stake (BUFFER_SIZE - 1) data = "" \/
        fst (parse_request
               (Some (poke (zeros BUFFER_SIZE) (stake (BUFFER_SIZE - 1) data)))
               (Some req_uninit)) <> 0%Z)) ->
    disk (handle_client c w) = disk w /\
    List.filter is_storage (log (handle_client c w)) = List.filter is_storage (log w).
Proof.
  intros c w [[e He] | (data & Hd & [Hz | Hp])].
  - rewrite (handle_client_failed_read c w) by eauto.
    split; [reflexivity |]. unfold close, perror, emit. cbn [log].
    rewrite !List.filter_app. cbn. now rewrite !app_nil_r.
  - unfold handle_client. rewrite (read_data _ _ _ _ Hd), Hz.
    change (Z.of_nat (String.length "") <=? 0)%Z with true. cbv iota beta.
    split; [reflexivity |]. unfold close, perror, emit. cbn [log].
    rewrite !List.filter_app. cbn. now rewrite !app_nil_r.
  - destruct (String.eqb (stake (BUFFER_SIZE - 1) data) "") eqn:E.
    { apply String.eqb_eq in E.
      unfold handle_client. rewrite (read_data _ _ _ _ Hd), E.
      change (Z.of_nat (String.length "") <=? 0)%Z with true. cbv iota beta.
      split; [reflexivity |]. unfold close, perror, emit. cbn [log].
      rewrite !List.filter_app. cbn. now rewrite !app_nil_r. }
    apply String.eqb_neq in E.
    destruct (handle_client_data c w data Hd E) as (req & _ & Hh).
    rewrite Hh. apply Z.eqb_neq in Hp. rewrite Hp. cbn [negb].
    unfold close. cbn [disk emit log]. unfold emit at 1. cbn [log].
    rewrite List.filter_app, write_all_disk, write_all_storage. cbn.
    unfold emit. cbn [log disk]. rewrite List.filter_app. cbn.
    now rewrite !app_nil_r.
Qed.

Lemma no_storage_without_a_request_witness :
  disk (handle_client (client 4 ("DELETE k" ++ LF)) blank) = disk blank.
Proof.
  refine (proj1 (no_storage_without_a_request (client 4 ("DELETE k" ++ LF)) blank _)).
  right. exists ("DELETE k" ++ LF). split; [reflexivity |].
  right. vm_compute. discriminate.
Defined.

End ConnectionEffects.

(** ** The parser on a request line *)

Section RequestLines.

Import Server2.

Lemma isspace_not_nul c : isspace c = true -> Ascii.eqb c NUL = false.
Proof.
  intros H. destruct (Ascii.eqb c NUL) eqn:E; [| reflexivity].
  apply Ascii.eqb_eq in E. subst c. discriminate H.
Qed.

Lemma cstr_blanks_app ws s : sall isspace ws = true -> cstr (ws ++ s) = ws ++ cstr s.
Proof.
  induction ws as [|c ws IH]; simpl; [reflexivity |]. intros H.
  apply andb_true_iff in H as [H1 H2]. now rewrite (isspace_not_nul _ H1), IH.
Qed.

Lemma skip_ws_blanks_app ws s : sall isspace ws = true -> skip_ws (ws ++ s) = skip_ws s.
Proof.
  induction ws as [|c ws IH]; simpl; [reflexivity |]. intros H.
  apply andb_true_iff in H as [H1 H2]. now rewrite H1, IH.
Qed.

Lemma skip_ws_idem s : skip_ws (skip_ws s) = skip_ws s.
Proof.
  induction s as [|c s IH]; [reflexivity |]. simpl.
  destruct (isspace c) eqn:E; [exact IH |]. simpl. now rewrite E.
Qed.

(** X12.  White space in front of a request is ignored: parse_request
    returns the same status and the same request with or without it. *)
Theorem leading_blanks_are_ignored :
  forall (ws buf : string) (r0 : Request),
    sall isspace ws = true ->
    parse_request (Some (ws ++ buf)) (Some r0) = parse_request (Some buf) (Some r0).
Proof.
  intros ws buf r0 H.
  assert (Hs : scan_request (ws ++ buf) = scan_request buf).
  { unfold scan_request, sscanf3.
    rewrite (cstr_blanks_app ws buf H), (skip_ws_blanks_app ws _ H). reflexivity. }
  unfold parse_request. now rewrite Hs.
Qed.

Lemma leading_blanks_are_ignored_witness :
  parse_request (Some ((" " ++ LF ++ String "009" "") ++ "GET k")) (Some req_uninit)
  = parse_request (Some "GET k") (Some req_uninit).
Proof.
  refine (leading_blanks_are_ignored (" " ++ LF ++ String "009" "") "GET k" req_uninit _).
  reflexivity.
Defined.

(** The value conversion starts on a byte that is not white space. *)
Lemma scan_request_value_head buf v :
  sc_value (scan_request buf) = Some v -> skip_ws v = v /\ v <> "".
Proof.
  unfold scan_request, sscanf3.
  destruct (skip_ws (cstr buf)) as [|c0 r0]; [discriminate |].
  destruct (scan_run nonspace 9 (String c0 r0)) as [c s1].
  destruct (skip_ws s1) as [|c1 r1]; [discriminate |].
  destruct (scan_run nonspace 99 (String c1 r1)) as [k s3].
  destruct (skip_ws s3) as [|c2 r2] eqn:E4; [discriminate |].
  pose proof (skip_ws_head _ _ _ E4) as Hc2.
  destruct (scan_run not_newline 1023 (String c2 r2)) as [v0 s5] eqn:E5.
  simpl in E5. rewrite (nonspace_not_newline _ Hc2) in E5.
  destruct (scan_run not_newline 1022 r2) as [t r']. injection E5 as <- _.
  cbn. intros [= <-]. split; [| discriminate]. simpl. now rewrite Hc2.
Qed.

(** X13.  The value parse_request leaves in a request never holds a
    newline, never starts with white space and is at most BUFFER_SIZE-1
    bytes long; it is empty exactly when the scan captured no value. *)
Theorem parsed_value_is_one_line :
  forall (buf : string) (r0 req : Request) (st : Z),
    parse_request (Some buf) (Some r0) = (st, Some req) ->
    let v := cstr (value req) in
    mem "010" v = false /\ skip_ws v = v /\ String.length v <= BUFFER_SIZE - 1 /\
    (v = "" <-> sc_value (scan_request buf) = None).
Proof.
  intros buf r0 req st Hp v. subst v.
  destruct (parse_request_fields buf r0) as [c Hf].
  rewrite Hp in Hf. cbn [snd] in Hf.
  assert (Hv : value req = assign (zeros BUFFER_SIZE) (sc_value (scan_request buf)))
    by (now inversion Hf).
  rewrite Hv. clear Hf Hv.
  destruct (scan_request_bounds buf) as (_ & _ & Bv & _).
  destruct (sc_value (scan_request buf)) as [v|] eqn:E.
  - destruct (Bv v eq_refl) as (Vne & Vl & Vnl & Vn).
    destruct (scan_request_value_head buf v E) as [Hh _].
    apply sall_not_nul in Vn. rewrite (cstr_assign BUFFER_SIZE v Vn).
    split; [now apply (sall_mem not_newline) |]. split; [exact Hh |].
    split; [exact Vl |]. split; [congruence | discriminate].
  - cbn [assign]. rewrite cstr_zeros. repeat split; simpl; lia.
Qed.

Lemma parsed_value_is_one_line_witness :
  let v := cstr (poke (zeros BUFFER_SIZE) ("b c" ++ String "013" "")) in
  mem "010" v = false /\ skip_ws v = v /\ String.length v <= BUFFER_SIZE - 1 /\
  (v = "" <->
   sc_value (scan_request ("SET a   b c" ++ String "013" "" ++ LF ++ "more")) = None).
Proof.
  refine (parsed_value_is_one_line
            ("SET a   b c" ++ String "013" "" ++ LF ++ "more") req_uninit
            {| cmd := CMD_SET; key := poke (zeros 100) "a";
               value := poke (zeros BUFFER_SIZE) ("b c" ++ String "013" "") |} 0%Z _).
  vm_compute. reflexivity.
Defined.

End RequestLines.

(** ** A SET and a GET over the wire *)

Section Wire.

Import Server2.

Lemma conv_stop f w t c r :
  sall f t = true -> f c = false -> String.length t <= w ->
  scan_run f w (t ++ String c r) = (t, String c r).
Proof.
  intros Ht Hc Hl.
  assert (Hall : scan_all f (t ++ String c r) = (t, String c r)).
  { clear Hl. induction t as [|a t IH]; simpl.
    - now rewrite Hc.
    - simpl in Ht. apply andb_true_iff in Ht as [H1 H2].
      now rewrite H1, (IH H2). }
  rewrite scan_run_fits; rewrite Hall; [reflexivity | exact Hl].
Qed.

Lemma skip_ws_fixed_app s r : s <> "" -> skip_ws s = s -> skip_ws (s ++ r) = s ++ r.
Proof.
  destruct s as [|c s]; [congruence |]. intros _. simpl.
  destruct (isspace c) eqn:E; [| reflexivity].
  intros H. exfalso.
  assert (Hl : String.length (skip_ws s) <= String.length s).
  { clear. induction s as [|d s IH]; simpl; [lia |].
    destruct (isspace d); simpl; lia. }
  rewrite H in Hl. simpl in Hl. lia.
Qed.

Lemma nonspace_fixed k : k <> "" -> sall nonspace k = true -> skip_ws k = k.
Proof.
  destruct k as [|c k]; [congruence |]. simpl. intros _ H.
  apply andb_true_iff in H as [H _]. unfold nonspace in H.
  apply negb_true_iff in H. now rewrite H.
Qed.

(** The scan of "<t> <k> <v>\n". *)
Lemma scan_three_tokens t k v n :
  t <> "" -> sall nonspace t = true -> String.length t <= 9 ->
  k <> "" -> sall nonspace k = true -> String.length k <= 99 ->
  v <> "" -> skip_ws v = v -> sall not_newline v = true -> String.length v <= 1023 ->
  mem NUL (t ++ " " ++ k ++ " " ++ v ++ LF) = false ->
  scan_request (poke (zeros n) (t ++ " " ++ k ++ " " ++ v ++ LF))
  = {| matched := 3; sc_cmd := Some t; sc_key := Some k; sc_value := Some v |}.
Proof.
  intros Ht At Lt Hk Ak Lk Hv Sv Av Lv Hn.
  unfold scan_request, sscanf3. rewrite (cstr_poke _ _ Hn).
  rewrite (skip_ws_fixed_app t _ Ht (nonspace_fixed t Ht At)).
  destruct (t ++ " " ++ k ++ " " ++ v ++ LF) as [|a0 l0] eqn:E0;
    [destruct t; [congruence | discriminate] |].
  rewrite <- E0. change (t ++ " " ++ k ++ " " ++ v ++ LF)
    with (t ++ String " " (k ++ " " ++ v ++ LF)).
  rewrite (conv_stop nonspace 9 t " " _ At eq_refl Lt).
  change (skip_ws (String " " (k ++ " " ++ v ++ LF)))
    with (skip_ws (k ++ " " ++ v ++ LF)).
  rewrite (skip_ws_fixed_app k _ Hk (nonspace_fixed k Hk Ak)).
  destruct (k ++ " " ++ v ++ LF) as [|a1 l1] eqn:E1;
    [destruct k; [congruence | discriminate] |].
  rewrite <- E1. change (k ++ " " ++ v ++ LF) with (k ++ String " " (v ++ LF)).
  rewrite (conv_stop nonspace 99 k " " _ Ak eq_refl Lk).
  change (skip_ws (String " " (v ++ LF))) with (skip_ws (v ++ LF)).
  rewrite (skip_ws_fixed_app v _ Hv Sv).
  destruct (v ++ LF) as [|a2 l2] eqn:E2;
    [destruct v; [congruence | discriminate] |].
  rewrite <- E2. change (v ++ LF) with (v ++ String "010" "").
  rewrite (conv_stop not_newline 1023 v "010" _ Av eq_refl Lv).
  destruct v; [congruence | reflexivity].
Qed.

(** The scan of "<t> <k>\n". *)
Lemma scan_two_tokens t k n :
  t <> "" -> sall nonspace t = true -> String.length t <= 9 ->
  k <> "" -> sall nonspace k = true -> String.length k <= 99 ->
  mem NUL (t ++ " " ++ k ++ LF) = false ->
  scan_request (poke (zeros n) (t ++ " " ++ k ++ LF))
  = {| matched := 2; sc_cmd := Some t; sc_key := Some k; sc_value := None |}.
Proof.
  intros Ht At Lt Hk Ak Lk Hn.
  unfold scan_request, sscanf3. rewrite (cstr_poke _ _ Hn).
  rewrite (skip_ws_fixed_app t _ Ht (nonspace_fixed t Ht At)).
  destruct (t ++ " " ++ k ++ LF) as [|a0 l0] eqn:E0;
    [destruct t; [congruence | discriminate] |].
  rewrite <- E0. change (t ++ " " ++ k ++ LF) with (t ++ String " " (k ++ LF)).
  rewrite (conv_stop nonspace 9 t " " _ At eq_refl Lt).
  change (skip_ws (String " " (k ++ LF))) with (skip_ws (k ++ LF)).
  rewrite (skip_ws_fixed_app k _ Hk (nonspace_fixed k Hk Ak)).
  destruct (k ++ LF) as [|a1 l1] eqn:E1;
    [destruct k; [congruence | discriminate] |].
  rewrite <- E1. change (k ++ LF) with (k ++ String "010" "").
  rewrite (conv_stop nonspace 99 k "010" _ Ak eq_refl Lk).
  reflexivity.
Qed.

End Wire.

Section WireRoundTrip.

Import Server2.

Lemma handle_set_ok req resp cap w :
  clave_valida (Some (key req)) = true ->
  (forall f, disk w !! cstr (key req) = Some f -> writable f = true) ->
  handle_set req resp cap w
  = (respond resp cap MSG_OK,
     {| disk := <[cstr (key req) := {| content := cstr (value req); writable := true |}]>
                  (disk w);
        log := (log w ++ [EvFopen (cstr (key req)) "w" true;
                          EvFputs (cstr (key req)) (cstr (value req));
                          EvFclose (cstr (key req))])%list |}).
Proof.
  intros Hv Hw. unfold handle_set. rewrite Hv. cbn [negb].
  assert (Hopen : fopen_w (cstr (key req)) w
                  = (Some (cstr (key req)),
                     emit (EvFopen (cstr (key req)) "w" true)
                       (set_disk (<[cstr (key req) := {| content := ""; writable := true |}]> (disk w)) w))).
  { unfold fopen_w. destruct (disk w !! cstr (key req)) as [f|] eqn:E; [| reflexivity].
    now rewrite (Hw f eq_refl). }
  rewrite Hopen. unfold fclose, fputs. cbn [disk emit set_disk].
  rewrite lookup_insert_eq. unfold emit, set_disk. cbn [disk log content writable].
  rewrite insert_insert_eq, <- !List.app_assoc. reflexivity.
Qed.

Lemma handle_get_ok req resp cap w f :
  clave_valida (Some (key req)) = true ->
  disk w !! cstr (key req) = Some f ->
  handle_get req resp cap w
  = (respond resp cap
       ("OK" ++ LF ++ stake (BUFFER_SIZE - 5)
                        (cstr (stake (BUFFER_SIZE - 1) (content f) ++ String NUL "")) ++ LF),
     {| disk := disk w;
        log := (log w ++ [EvFopen (cstr (key req)) "r" true;
                          EvFread (cstr (key req)) (BUFFER_SIZE - 1);
                          EvFclose (cstr (key req))])%list |}).
Proof.
  intros Hv Hf. unfold handle_get. rewrite Hv. cbn [negb].
  unfold fopen_r. rewrite Hf. unfold fread. cbn [disk emit]. rewrite Hf.
  unfold fclose, emit. cbn [disk log]. now rewrite <- !List.app_assoc.
Qed.

(** With a peer that takes every write whole, the text formatted in the
    response array goes out in one write. *)
Lemma send_cooperative c text w :
  outgoing c = [] -> text <> "" ->
  String.length text < BUFFER_SIZE -> mem NUL text = false ->
  snd (write_all c (respond (zeros BUFFER_SIZE) BUFFER_SIZE text)
         (strlen (respond (zeros BUFFER_SIZE) BUFFER_SIZE text)) w)
  = emit (EvWrite (fd c) text) w.
Proof.
  intros Hout Hne Hl Hn.
  set (r := respond (zeros BUFFER_SIZE) BUFFER_SIZE text).
  assert (Hr : stake (strlen r) r = text) by (now apply respond_strlen).
  unfold write_all. rewrite Hr, Hout.
  destruct text; [congruence | reflexivity].
Qed.

Lemma handle_client_parsed c w data req :
  incoming c = RdBytes data -> data <> "" ->
  String.length data <= BUFFER_SIZE - 1 ->
  parse_request (Some (poke (zeros BUFFER_SIZE) data)) (Some req_uninit)
  = (0%Z, Some req) ->
  handle_client c w = close (fd c) (run_request c req (emit (EvRead (fd c)) w)).
Proof.
  intros Hin Hne Hl Hp.
  assert (Hs : stake (BUFFER_SIZE - 1) data = data) by (now apply stake_all).
  destruct (handle_client_data c w data Hin) as (req' & Hr & Hh).
  { now rewrite Hs. }
  rewrite Hs, Hp in Hr, Hh. cbn [fst snd] in Hr, Hh.
  assert (req' = req) by congruence. subst req'. exact Hh.
Qed.

Lemma valid_name_clave k : valid_name k = true -> mem NUL k = false ->
  clave_valida (Some (poke (zeros 100) k)) = true.
Proof.
  intros Hv Hn. now rewrite clave_valida_valid_name, cstr_poke.
Qed.

(** X11.  A SET and a GET over the wire.  Let [k] be a key the validator
    accepts, without white space or NUL and at most 99 bytes long, and [v]
    a value that is not empty, starts with a byte that is not white space
    and holds neither newline nor NUL (spaces, tabs and a trailing carriage
    return are allowed), the line "SET k v\n" fitting in one read.  If the
    peers take every write whole and the file of [k] may be written, the
    connection that sends the SET line is answered "OK\n" after the file was
    created with exactly [v], and a later connection that sends "GET k\n"
    is answered "OK\n", [v], "\n"; each connection is closed after its
    answer. *)
Theorem set_and_get_over_the_wire :
  forall (k v : string) (fd1 fd2 : Z) (w : World),
    valid_name k = true -> sall nonspace k = true -> sall not_nul k = true ->
    String.length k <= 99 ->
    v <> "" -> skip_ws v = v -> sall not_newline v = true -> sall not_nul v = true ->
    String.length ("SET " ++ k ++ " " ++ v ++ LF) <= BUFFER_SIZE - 1 ->
    (forall f, disk w !! k = Some f -> writable f = true) ->
    let w1 := handle_client (client fd1 ("SET " ++ k ++ " " ++ v ++ LF)) w in
    let w2 := handle_client (client fd2 ("GET " ++ k ++ LF)) w1 in
    log w1 = (log w ++ [EvRead fd1; EvFopen k "w" true; EvFputs k v; EvFclose k;
                        EvWrite fd1 MSG_OK; EvClose fd1])%list /\
    disk w1 = <[k := {| content := v; writable := true |}]> (disk w) /\
    log w2 = (log w1 ++ [EvRead fd2; EvFopen k "r" true;
                         EvFread k (BUFFER_SIZE - 1); EvFclose k;
                         EvWrite fd2 ("OK" ++ LF ++ v ++ LF); EvClose fd2])%list /\
    disk w2 = disk w1.
Proof.
  intros k v fd1 fd2 w Vk Ak Nk Lk Hv Sv Av Nv Hlen Hw w1 w2. subst w2.
  assert (Hk : k <> "").
  { unfold valid_name in Vk. apply andb_true_iff in Vk as [Vk _].
    apply negb_true_iff in Vk. now apply String.eqb_neq. }
  apply sall_not_nul in Nk, Nv.
  rewrite !length_app in Hlen. change (String.length "SET ") with 4 in Hlen.
  change (String.length " ") with 1 in Hlen. change (String.length LF) with 1 in Hlen.
  unfold BUFFER_SIZE in Hlen.
  (* the SET connection *)
  assert (Hn1 : mem NUL ("SET" ++ " " ++ k ++ " " ++ v ++ LF) = false)
    by (rewrite !mem_app, Nk, Nv; reflexivity).
  assert (Hp1 : parse_request (Some (poke (zeros BUFFER_SIZE) ("SET " ++ k ++ " " ++ v ++ LF)))
                  (Some req_uninit)
                = (0%Z, Some {| cmd := CMD_SET; key := poke (zeros 100) k;
                                value := poke (zeros BUFFER_SIZE) v |})).
  { unfold parse_request.
    change ("SET " ++ k ++ " " ++ v ++ LF) with ("SET" ++ " " ++ k ++ " " ++ v ++ LF).
    rewrite (scan_three_tokens "SET" k v BUFFER_SIZE); try assumption;
      try reflexivity; try discriminate; try lia.
    simpl; lia. }
  assert (Hc1 : handle_client (client fd1 ("SET " ++ k ++ " " ++ v ++ LF)) w
                = close fd1 (run_request (client fd1 ("SET " ++ k ++ " " ++ v ++ LF))
                               {| cmd := CMD_SET; key := poke (zeros 100) k;
                                  value := poke (zeros BUFFER_SIZE) v |}
                               (emit (EvRead fd1) w))).
  { apply (handle_client_parsed (client fd1 ("SET " ++ k ++ " " ++ v ++ LF)) w
             ("SET " ++ k ++ " " ++ v ++ LF));
      [reflexivity | discriminate | | exact Hp1].
    rewrite !length_app. change (String.length "SET ") with 4.
    change (String.length " ") with 1. change (String.length LF) with 1.
    unfold BUFFER_SIZE. lia. }
  assert (Hw1 : w1 = {| disk := <[k := {| content := v; writable := true |}]> (disk w);
                        log := (log w ++ [EvRead fd1; EvFopen k "w" true; EvFputs k v;
                                          EvFclose k; EvWrite fd1 MSG_OK; EvClose fd1])%list |}).
  { unfold w1. rewrite Hc1. unfold run_request. cbn [cmd].
    rewrite handle_set_ok; cbn [key value]; rewrite ?cstr_poke by assumption;
      [| now apply valid_name_clave | exact Hw].
    rewrite send_cooperative; [| reflexivity | discriminate | vm_compute; lia | reflexivity].
    unfold close, emit. cbn [disk log fd client].
    rewrite <- !List.app_assoc. reflexivity. }
  (* the GET connection *)
  assert (Hn2 : mem NUL ("GET" ++ " " ++ k ++ LF) = false)
    by (rewrite !mem_app, Nk; reflexivity).
  assert (Hp2 : parse_request (Some (poke (zeros BUFFER_SIZE) ("GET " ++ k ++ LF)))
                  (Some req_uninit)
                = (0%Z, Some {| cmd := CMD_GET; key := poke (zeros 100) k;
                                value := zeros BUFFER_SIZE |})).
  { unfold parse_request.
    change ("GET " ++ k ++ LF) with ("GET" ++ " " ++ k ++ LF).
    rewrite (scan_two_tokens "GET" k BUFFER_SIZE); try assumption;
      try reflexivity; try discriminate.
    simpl; lia. }
  assert (Hc2 : handle_client (client fd2 ("GET " ++ k ++ LF)) w1
                = close fd2 (run_request (client fd2 ("GET " ++ k ++ LF))
                               {| cmd := CMD_GET; key := poke (zeros 100) k;
                                  value := zeros BUFFER_SIZE |}
                               (emit (EvRead fd2) w1))).
  { apply (handle_client_parsed (client fd2 ("GET " ++ k ++ LF)) w1
             ("GET " ++ k ++ LF));
      [reflexivity | discriminate | | exact Hp2].
    rewrite !length_app. change (String.length "GET ") with 4.
    change (String.length LF) with 1. unfold BUFFER_SIZE. lia. }
  assert (Htext : "OK" ++ LF ++ stake (BUFFER_SIZE - 5)
                    (cstr (stake (BUFFER_SIZE - 1) v ++ String NUL "")) ++ LF
                  = "OK" ++ LF ++ v ++ LF).
  { rewrite cstr_app_nul_gen, cstr_stake, (cstr_id v Nv).
    rewrite stake_stake by (unfold BUFFER_SIZE; lia).
    rewrite stake_all by (unfold BUFFER_SIZE; lia). reflexivity. }
  assert (Hw2 : handle_client (client fd2 ("GET " ++ k ++ LF)) w1
                = {| disk := disk w1;
                        log := (log w1 ++ [EvRead fd2; EvFopen k "r" true;
                                           EvFread k (BUFFER_SIZE - 1); EvFclose k;
                                           EvWrite fd2 ("OK" ++ LF ++ v ++ LF);
                                           EvClose fd2])%list |}).
  { rewrite Hc2. unfold run_request. cbn [cmd].
    rewrite (handle_get_ok _ _ _ _ {| content := v; writable := true |});
      cbn [key]; rewrite ?cstr_poke by assumption;
      [| now apply valid_name_clave
       | rewrite Hw1; cbn [disk emit]; apply lookup_insert_eq].
    cbn [content]. rewrite Htext.
    rewrite send_cooperative;
      [| reflexivity | discriminate | | rewrite !mem_app, Nv; reflexivity].
    - unfold close, emit. cbn [disk log fd client].
      rewrite <- !List.app_assoc. reflexivity.
    - rewrite !length_app. change (String.length "OK") with 2.
      change (String.length LF) with 1. unfold BUFFER_SIZE. lia. }
  rewrite Hw2. cbn [log disk]. rewrite Hw1. cbn [log disk].
  repeat split; reflexivity.
Qed.

Lemma set_and_get_over_the_wire_witness :
  let w1 := handle_client (client 4 ("SET " ++ "greeting" ++ " " ++ "hello world" ++ LF)) blank in
  let w2 := handle_client (client 5 ("GET " ++ "greeting" ++ LF)) w1 in
  log w2 = (log w1 ++ [EvRead 5; EvFopen "greeting" "r" true;
                       EvFread "greeting" (BUFFER_SIZE - 1); EvFclose "greeting";
                       EvWrite 5 ("OK" ++ LF ++ "hello world" ++ LF); EvClose 5])%list.
Proof.
  intros w1 w2.
  refine (proj1 (proj2 (proj2
    (set_and_get_over_the_wire "greeting" "hello world" 4 5 blank
       _ _ _ _ _ _ _ _ _ _)))); try reflexivity.
  - vm_compute. lia.
  - discriminate.
  - vm_compute. lia.
  - intros f Hf. vm_compute in Hf. discriminate Hf.
Defined.

End WireRoundTrip.

(** ** main and its loop *)

Section MainFacts.

Import Server2.

(** X14.  main of server2.c returns EXIT_FAILURE exactly when socket,
    setsockopt, bind or listen fails: then no connection is accepted, the
    disk is not touched, the failure is reported and the socket, if it was
    created, is closed.  Once the socket is listening the only status main
    can return is 0. *)
Theorem main_fails_only_at_startup :
  forall (s : Startup) (steps : list Step) (w : World),
    (startup_failed s = true ->
     exists w', main s steps w = Exited EXIT_FAILURE w' /\
                disk w' = disk w /\ accepts (log w') = accepts (log w) /\
                (((socket_r s <? 0)%Z = true /\
                  log w' = (log w ++ [EvPerror "socket"])%list) \/
                 ((socket_r s <? 0)%Z = false /\
                  exists what,
                    log w' = (log w ++ [EvPerror what; EvClose (socket_r s)])%list))) /\
    (startup_failed s = false ->
     forall status w', main s steps w = Exited status w' -> status = 0%Z).
Proof.
  intros s steps w. split.
  - unfold startup_failed, main. intros H.
    destruct (socket_r s <? 0)%Z.
    { eexists. split; [reflexivity |]. split; [reflexivity |].
      split; [unfold perror, emit; cbn [log]; rewrite accepts_app; cbn; lia |].
      left. split; reflexivity. }
    assert (Hlog : forall what,
              let w' := close (socket_r s) (perror what w) in
              disk w' = disk w /\ accepts (log w') = accepts (log w) /\
              ((false = true /\ log w' = (log w ++ [EvPerror "socket"])%list) \/
               (false = false /\
                exists what0,
                  log w' = (log w ++ [EvPerror what0; EvClose (socket_r s)])%list))).
    { intros what w'. subst w'. unfold close, perror, emit. cbn [log disk].
      split; [reflexivity |]. split; [rewrite !accepts_app; cbn; lia |].
      right. split; [reflexivity |]. exists what.
      now rewrite <- List.app_assoc. }
    destruct (setsockopt_r s <? 0)%Z;
      [eexists; split; [reflexivity | apply Hlog] |].
    destruct (bind_r s <? 0)%Z;
      [eexists; split; [reflexivity | apply Hlog] |].
    destruct (listen_r s <? 0)%Z;
      [eexists; split; [reflexivity | apply Hlog] | discriminate].
  - intros Hs status w' H. rewrite (main_started _ _ _ Hs) in H.
    now destruct (serve_exit _ _ _ _ _ _ H).
Qed.

Lemma main_fails_only_at_startup_witness :
  let s := {| socket_r := 3; setsockopt_r := 0; bind_r := -1; listen_r := 0 |} in
  exists w', main s [] blank = Exited EXIT_FAILURE w' /\
             disk w' = disk blank /\ accepts (log w') = accepts (log blank) /\
             (((socket_r s <? 0)%Z = true /\
               log w' = (log blank ++ [EvPerror "socket"])%list) \/
              ((socket_r s <? 0)%Z = false /\
               exists what,
                 log w' = (log blank ++ [EvPerror what; EvClose (socket_r s)])%list)).
Proof.
  intros s. refine (proj1 (main_fails_only_at_startup s [] blank) _). reflexivity.
Defined.

(** X15.  Connections are served strictly one after the other.  Over steps
    without SIGINT the loop leaves one segment of log per step, in order: a
    failed accept is reported; an accepted connection is read, served and
    closed before accept is called again. *)
Theorem connections_are_served_in_turn :
  forall (server_fd : Z) (steps : list Step) (w : World),
    Forall (fun st => has_sig st = false) steps ->
    exists w' l,
      serve server_fd steps false w = Running w' /\
      log w' = (log w ++ l)%list /\ served steps l.
Proof.
  intros server_fd steps w H. revert w.
  induction H as [|st steps Hst _ IH]; intros w.
  - exists w, []. split; [reflexivity |]. split; [now rewrite app_nil_r | constructor].
  - unfold has_sig in Hst. apply orb_false_iff in Hst as [Hs1 Hs2].
    destruct (accepted st) as [e | c] eqn:Ea.
    + destruct (IH (perror "accept" (emit (EvAccept false) w))) as (w' & l & Hr & Hl & Hsv).
      exists w', (EvAccept false :: EvPerror "accept" :: l). split; [| split].
      * cbn [serve]. rewrite Hs1, Hs2, Ea, andb_false_r. exact Hr.
      * rewrite Hl. unfold perror, emit. cbn [log].
        now rewrite <- !List.app_assoc.
      * now apply served_fail with e.
    + destruct (handle_client_shape c (emit (EvAccept true) w)) as (body & Hb & Hf).
      destruct (IH (handle_client c (emit (EvAccept true) w))) as (w' & l & Hr & Hl & Hsv).
      exists w', (EvAccept true :: EvRead (fd c) :: body ++ EvClose (fd c) :: l).
      split; [| split].
      * cbn [serve]. rewrite Hs1, Hs2, Ea. exact Hr.
      * rewrite Hl, Hb. unfold emit. cbn [log].
        rewrite <- !List.app_assoc. cbn [app]. now rewrite <- List.app_assoc.
      * now apply served_conn.
Qed.

Lemma connections_are_served_in_turn_witness :
  let quiet a := {| sig_in_accept := false; accepted := a; sig_after := false |} in
  let steps := [quiet (AccConn (client 4 ("GET a" ++ LF))); quiet (AccFail 24);
                quiet (AccConn (client 5 ("DEL a" ++ LF)))] in
  exists w' l,
    serve 3 steps false blank = Running w' /\
    log w' = (log blank ++ l)%list /\ served steps l.
Proof.
  intros quiet steps.
  refine (connections_are_served_in_turn 3 steps blank _).
  repeat constructor.
Defined.

End MainFacts.

(** ** servidor.c *)

Section ServidorFacts.

Lemma sdrop_zeros m n : sdrop m (zeros n) = zeros (n - m).
Proof.
  revert m; induction n as [|n IH]; intros [|m]; simpl; try reflexivity.
  apply IH.
Qed.

(** The buffer of handle_command after the read: it was zeroed and the read
    stores fewer bytes than it has, so the C string it holds is the one of
    the bytes read. *)
Lemma cstr_blit_zeros n d : String.length d < n -> cstr (blit (zeros n) d) = cstr d.
Proof.
  intros H. unfold blit. rewrite sdrop_zeros.
  destruct (n - String.length d) as [|j] eqn:E; [lia |].
  simpl zeros. apply cstr_app_nul_gen.
Qed.

Lemma servidor_buffer data :
  cstr (blit (zeros Servidor.BUFFER_SIZE) (stake (Servidor.BUFFER_SIZE - 1) data))
  = cstr (stake (Servidor.BUFFER_SIZE - 1) data).
Proof.
  apply cstr_blit_zeros.
  pose proof (length_stake_le (Servidor.BUFFER_SIZE - 1) data).
  unfold Servidor.BUFFER_SIZE in *. lia.
Qed.

Lemma length_skip_ws s : String.length (skip_ws s) <= String.length s.
Proof.
  induction s as [|c s IH]; simpl; [lia |]. destruct (isspace c); simpl; lia.
Qed.

Lemma length_scan_all f s :
  String.length (fst (scan_all f s)) + String.length (snd (scan_all f s))
  = String.length s.
Proof. rewrite <- length_app. now rewrite scan_all_app. Qed.

Lemma length_cstr a : String.length (cstr a) <= String.length a.
Proof. apply strlen_le. Qed.

(** The unbounded scan of servidor.c in terms of the tokens of the input. *)
Lemma servidor_scan_tokens buf t ts :
  tokens (cstr buf) = t :: ts ->
  let sc := sscanf3 scan_all scan_all scan_all buf in
  sc_cmd sc = Some t /\ mem NUL t = false /\
  (forall v, sc_value sc = Some v -> String.length v <= String.length (cstr buf)) /\
  match ts with
  | [] => matched sc = 1%Z /\ sc_key sc = None /\ sc_value sc = None
  | k :: ts' =>
      sc_key sc = Some k /\ mem NUL k = false /\
      match ts' with
      | [] => matched sc = 2%Z /\ sc_value sc = None
      | _ :: _ => matched sc = 3%Z /\ sc_value sc <> None
      end
  end.
Proof.
  intros Ht sc. subst sc. unfold sscanf3.
  pose proof (skip_ws_sall not_nul _ (cstr_not_nul buf)) as N0.
  pose proof (length_skip_ws (cstr buf)) as L0.
  destruct (skip_ws (cstr buf)) as [|c0 r0] eqn:E0.
  { apply skip_ws_empty in E0. congruence. }
  pose proof (skip_ws_head _ _ _ E0) as Hc0.
  rewrite <- tokens_skip_ws, E0, (tokens_scan _ _ Hc0) in Ht.
  assert (Hh : fst (scan_all nonspace (String c0 r0)) = t) by (now injection Ht).
  assert (Hts : tokens (snd (scan_all nonspace (String c0 r0))) = ts)
    by (now injection Ht).
  clear Ht.
  pose proof (scan_all_app nonspace (String c0 r0)) as A1.
  pose proof (length_scan_all nonspace (String c0 r0)) as L1.
  destruct (scan_all nonspace (String c0 r0)) as [t0 s1] eqn:E1.
  cbn [fst snd] in *. subst t0.
  rewrite <- A1, sall_app in N0. apply andb_true_iff in N0 as [Nt N1].
  assert (Nt' : mem NUL t = false) by (now apply sall_not_nul).
  pose proof (skip_ws_sall not_nul _ N1) as N2.
  pose proof (length_skip_ws s1) as L2.
  destruct (skip_ws s1) as [|c1 r1] eqn:E2.
  { apply skip_ws_empty in E2. rewrite E2 in Hts. subst ts. cbn.
    repeat split; try reflexivity; try assumption. discriminate. }
  pose proof (skip_ws_head _ _ _ E2) as Hc1.
  rewrite <- tokens_skip_ws, E2, (tokens_scan _ _ Hc1) in Hts.
  pose proof (scan_all_app nonspace (String c1 r1)) as A3.
  pose proof (length_scan_all nonspace (String c1 r1)) as L3.
  destruct (scan_all nonspace (String c1 r1)) as [k s3] eqn:E3.
  cbn [fst snd] in *. subst ts.
  rewrite <- A3, sall_app in N2. apply andb_true_iff in N2 as [Nk N3].
  assert (Nk' : mem NUL k = false) by (now apply sall_not_nul).
  pose proof (length_skip_ws s3) as L4.
  destruct (skip_ws s3) as [|c2 r2] eqn:E4.
  { apply skip_ws_empty in E4. rewrite E4. cbn.
    repeat split; try reflexivity; try assumption. discriminate. }
  pose proof (skip_ws_head _ _ _ E4) as Hc2.
  assert (Hts' : tokens s3 <> []).
  { rewrite <- tokens_skip_ws, E4. now apply tokens_nonspace. }
  pose proof (scan_all_head not_newline c2 r2 (nonspace_not_newline _ Hc2)) as Hne.
  pose proof (length_scan_all not_newline (String c2 r2)) as L5.
  destruct (scan_all not_newline (String c2 r2)) as [v s5].
  cbn [fst snd] in *. destruct v as [|cv v]; [congruence |].
  destruct (tokens s3); [congruence |]. cbn.
  split; [reflexivity |]. split; [assumption |]. split.
  - intros v0 [= <-]. cbn [String.length] in *. lia.
  - repeat split; try assumption. discriminate.
Qed.

Lemma reply_frame c r w :
  disk (Servidor.reply c r w) = disk w /\
  List.filter is_storage (log (Servidor.reply c r w)) = List.filter is_storage (log w).
Proof.
  unfold Servidor.reply, write, close.
  destruct (head (outgoing c)) as [[e | n]|]; unfold emit; cbn [snd disk log];
    rewrite ?List.filter_app; cbn; rewrite ?app_nil_r; split; reflexivity.
Qed.

Lemma servidor_read c junk w data :
  incoming c = RdBytes data -> stake (Servidor.BUFFER_SIZE - 1) data <> "" ->
  Servidor.handle_command c junk w
  = let w1 := emit (EvRead (fd c)) w in
    let buffer := blit (zeros Servidor.BUFFER_SIZE)
                       (stake (Servidor.BUFFER_SIZE - 1) data) in
    let sc := sscanf3 scan_all scan_all scan_all buffer in
    if negb (Servidor.fits 10 (sc_cmd sc) && Servidor.fits 100 (sc_key sc)
             && Servidor.fits Servidor.BUFFER_SIZE (sc_value sc))
    then Servidor.Undefined
    else
      let cmd := assign (Servidor.junk_cmd junk) (sc_cmd sc) in
      let key := assign (Servidor.junk_key junk) (sc_key sc) in
      let value := assign (Servidor.junk_value junk) (sc_value sc) in
      if (Servidor.clave_valida key =? 0)%Z
      then Servidor.Returned
             (Servidor.reply c
                (poke (zeros Servidor.BUFFER_SIZE)
                   (snprintf Servidor.BUFFER_SIZE Servidor.MSG_CLAVE_INVALIDA)) w1)
      else if String.eqb (cstr cmd) "SET" && (matched sc =? 3)%Z then
        match fopen_w (cstr key) w1 with
        | (None, w2) =>
            Servidor.Exit EXIT_FAILURE (perror "No se pudo crear el archivo" w2)
        | (Some fp, w2) =>
            let w3 := fclose fp (fputs (cstr value) fp w2) in
            Servidor.Returned
              (Servidor.reply c
                 (poke (zeros Servidor.BUFFER_SIZE)
                    (snprintf Servidor.BUFFER_SIZE Servidor.MSG_OK)) w3)
        end
      else if String.eqb (cstr cmd) "GET" && (2 <=? matched sc)%Z then
        match fopen_r (cstr key) w1 with
        | (None, w2) =>
            Servidor.Returned
              (Servidor.reply c
                 (poke (zeros Servidor.BUFFER_SIZE)
                    (snprintf Servidor.BUFFER_SIZE Servidor.MSG_NOTFOUND)) w2)
        | (Some fp, w2) =>
            let '(bytes, w3) := fread (Servidor.BUFFER_SIZE - 1) fp w2 in
            let contenido :=
              set_byte (Servidor.BUFFER_SIZE - 1) NUL
                       (blit (Servidor.junk_contenido junk) bytes) in
            let w4 := fclose fp w3 in
            Servidor.Returned
              (Servidor.reply c
                 (poke (zeros Servidor.BUFFER_SIZE)
                    (snprintf Servidor.BUFFER_SIZE
                       ("OK" ++ LF ++ cstr contenido ++ LF))) w4)
        end
      else if String.eqb (cstr cmd) "DEL" && (2 <=? matched sc)%Z then
        let w2 := remove (cstr key) w1 in
        Servidor.Returned
          (Servidor.reply c
             (poke (zeros Servidor.BUFFER_SIZE)
                (snprintf Servidor.BUFFER_SIZE Servidor.MSG_OK)) w2)
      else
        Servidor.Returned
          (Servidor.reply c
             (poke (zeros Servidor.BUFFER_SIZE)
                (snprintf Servidor.BUFFER_SIZE Servidor.MSG_COMANDO_INVALIDO)) w1).
Proof.
  intros Hin Hne. unfold Servidor.handle_command. rewrite (read_data _ _ _ _ Hin).
  assert (Hpos : (Z.of_nat (String.length (stake (Servidor.BUFFER_SIZE - 1) data)) <=? 0)%Z
                 = false).
  { apply Z.leb_gt. destruct (stake (Servidor.BUFFER_SIZE - 1) data);
      [congruence | simpl; lia]. }
  now rewrite Hpos.
Qed.

End ServidorFacts.

Section ServidorBehaviour.

Lemma servidor_tokens_nonempty data t ts :
  tokens (cstr (stake (Servidor.BUFFER_SIZE - 1) data)) = t :: ts ->
  stake (Servidor.BUFFER_SIZE - 1) data <> "".
Proof. intros H E. rewrite E in H. discriminate. Qed.

Lemma servidor_value_fits data :
  let sc := sscanf3 scan_all scan_all scan_all
              (blit (zeros Servidor.BUFFER_SIZE) (stake (Servidor.BUFFER_SIZE - 1) data)) in
  forall t ts, tokens (cstr (stake (Servidor.BUFFER_SIZE - 1) data)) = t :: ts ->
  Servidor.fits Servidor.BUFFER_SIZE (sc_value sc) = true.
Proof.
  intros sc t ts Ht. rewrite <- servidor_buffer in Ht.
  destruct (servidor_scan_tokens _ t ts Ht) as (_ & _ & Hv & _). fold sc in Hv.
  destruct (sc_value sc) as [v|]; [| reflexivity].
  specialize (Hv v eq_refl). rewrite servidor_buffer in Hv.
  pose proof (length_cstr (stake (Servidor.BUFFER_SIZE - 1) data)) as H1.
  pose proof (length_stake_le (Servidor.BUFFER_SIZE - 1) data) as H2.
  cbn [Servidor.fits]. apply Nat.ltb_lt. unfold Servidor.BUFFER_SIZE in *. lia.
Qed.

(** X17.  servidor.c validates the key before it looks at the command: when
    the second token of the input is a key the validator refuses, the
    answer is the invalid-key message whatever the first token is, a known
    command or not, and no storage call is made. *)
Theorem servidor_checks_the_key_first :
  forall (c : Conn) (junk : Servidor.Locals) (w : World) (data t k : string)
         (ts : list string),
    incoming c = RdBytes data ->
    tokens (cstr (stake (Servidor.BUFFER_SIZE - 1) data)) = t :: k :: ts ->
    String.length t < 10 -> String.length k < 100 ->
    valid_name k = false ->
    exists w',
      Servidor.handle_command c junk w = Servidor.Returned w' /\
      disk w' = disk w /\
      List.filter is_storage (log w') = List.filter is_storage (log w) /\
      (outgoing c = [] ->
       log w' = (log w ++ [EvRead (fd c);
                           EvWrite (fd c) Servidor.MSG_CLAVE_INVALIDA;
                           EvClose (fd c)])%list).
Proof.
  intros c junk w data t k ts Hin Ht Lt Lk Hk.
  rewrite (servidor_read c junk w data Hin (servidor_tokens_nonempty _ _ _ Ht)).
  cbv zeta. pose proof (servidor_value_fits data t (k :: ts) Ht) as Hfit.
  cbv zeta in Hfit. rewrite <- servidor_buffer in Ht.
  destruct (servidor_scan_tokens _ t (k :: ts) Ht) as (Hc & _ & _ & Hkey & Nk & _).
  cbv zeta in Hc, Hkey. rewrite Hc, Hkey, Hfit. cbn [Servidor.fits assign].
  apply Nat.ltb_lt in Lt, Lk. rewrite Lt, Lk. cbn [andb negb].
  rewrite servidor_clave_valida, clave_valida_valid_name, (cstr_poke _ _ Nk), Hk.
  change (0 =? 0)%Z with true. cbv iota.
  eexists. split; [reflexivity |].
  destruct (reply_frame c
              (poke (zeros Servidor.BUFFER_SIZE)
                 (snprintf Servidor.BUFFER_SIZE Servidor.MSG_CLAVE_INVALIDA))
              (emit (EvRead (fd c)) w)) as [Hd Hs].
  split; [exact Hd |]. split.
  - rewrite Hs. unfold emit. cbn [log]. rewrite List.filter_app. cbn.
    now rewrite app_nil_r.
  - intros Hout. unfold Servidor.reply. rewrite Hout. cbn [head write].
    change (cstr (poke (zeros Servidor.BUFFER_SIZE)
                    (snprintf Servidor.BUFFER_SIZE Servidor.MSG_CLAVE_INVALIDA)))
      with Servidor.MSG_CLAVE_INVALIDA.
    unfold close, emit. cbn [snd log]. now rewrite <- !List.app_assoc.
Qed.

Lemma servidor_checks_the_key_first_witness :
  exists w',
    Servidor.handle_command (client 4 ("FOO a.b" ++ LF)) zero_junk blank
    = Servidor.Returned w' /\
    disk w' = disk blank /\
    List.filter is_storage (log w') = List.filter is_storage (log blank) /\
    (outgoing (client 4 ("FOO a.b" ++ LF)) = [] ->
     log w' = (log blank ++ [EvRead 4; EvWrite 4 Servidor.MSG_CLAVE_INVALIDA;
                             EvClose 4])%list).
Proof.
  refine (servidor_checks_the_key_first (client 4 ("FOO a.b" ++ LF)) zero_junk blank
            ("FOO a.b" ++ LF) "FOO" "a.b" [] eq_refl _ _ _ _).
  - reflexivity.
  - vm_compute. lia.
  - vm_compute. lia.
  - reflexivity.
Defined.

(** X18.  servidor.c scans without field widths: a first token of 10 bytes
    or more, or a second token of 100 bytes or more, is written past the end
    of cmd[10] or key[100]. *)
Theorem servidor_overruns_its_arrays :
  forall (c : Conn) (junk : Servidor.Locals) (w : World) (data t : string)
         (ts : list string),
    incoming c = RdBytes data ->
    tokens (cstr (stake (Servidor.BUFFER_SIZE - 1) data)) = t :: ts ->
    10 <= String.length t \/
    (exists k ts', ts = k :: ts' /\ 100 <= String.length k) ->
    Servidor.handle_command c junk w = Servidor.Undefined.
Proof.
  intros c junk w data t ts Hin Ht Hlong.
  rewrite (servidor_read c junk w data Hin (servidor_tokens_nonempty _ _ _ Ht)).
  cbv zeta. rewrite <- servidor_buffer in Ht.
  destruct (servidor_scan_tokens _ t ts Ht) as (Hc & _ & _ & Hts).
  cbv zeta in Hc, Hts. rewrite Hc. cbn [Servidor.fits].
  destruct Hlong as [Hl | (k & ts' & -> & Hl)].
  - apply Nat.ltb_ge in Hl. now rewrite Hl.
  - destruct Hts as (Hk & _). rewrite Hk. cbn [Servidor.fits].
    apply Nat.ltb_ge in Hl. rewrite Hl. now rewrite andb_false_r.
Qed.

Lemma servidor_overruns_its_arrays_witness :
  Servidor.handle_command (client 4 ("GET " ++ fill "k" 100 ++ LF)) zero_junk blank
  = Servidor.Undefined.
Proof.
  refine (servidor_overruns_its_arrays (client 4 ("GET " ++ fill "k" 100 ++ LF))
            zero_junk blank ("GET " ++ fill "k" 100 ++ LF) "GET" [fill "k" 100]
            eq_refl _ _).
  - now vm_compute.
  - right. exists (fill "k" 100), []. split; [reflexivity |]. vm_compute. lia.
Defined.

Lemma servidor_exit c junk w status w' :
  Servidor.handle_command c junk w = Servidor.Exit status w' ->
  status = EXIT_FAILURE /\ disk w' = disk w /\
  sent (fd c) (log w') = sent (fd c) (log w) /\
  ((exists l, log w' = (l ++ [EvPerror "Error al leer del cliente"; EvClose (fd c)])%list) \/
   (exists l k, log w' = (l ++ [EvFopen k "w" false;
                                EvPerror "No se pudo crear el archivo"])%list)).
Proof.
  assert (Hread : forall w1, w1 = emit (EvRead (fd c)) w ->
            Servidor.Exit EXIT_FAILURE
              (close (fd c) (perror "Error al leer del cliente" w1))
            = Servidor.Exit status w' ->
            status = EXIT_FAILURE /\ disk w' = disk w /\
            sent (fd c) (log w') = sent (fd c) (log w) /\
            ((exists l, log w' = (l ++ [EvPerror "Error al leer del cliente";
                                       EvClose (fd c)])%list) \/
             (exists l k, log w' = (l ++ [EvFopen k "w" false;
                                          EvPerror "No se pudo crear el archivo"])%list))).
  { intros w1 -> [= <- <-]. split; [reflexivity |]. split; [reflexivity |].
    unfold close, perror, emit. cbn [log]. split.
    - rewrite !sent_app. cbn. now rewrite !app_empty_r.
    - left. exists (log w ++ [EvRead (fd c)])%list.
      exact (eq_sym (List.app_assoc _ [_] [_])). }
  unfold Servidor.handle_command, read.
  destruct (incoming c) as [e | data].
  { change (-1 <=? 0)%Z with true. cbv iota beta. now apply Hread. }
  cbv iota beta. destruct (_ <=? 0)%Z; [now apply Hread |].
  destruct (negb _); [discriminate |].
  destruct (_ =? 0)%Z; [discriminate |].
  destruct (_ && _).
  { unfold fopen_w. destruct (disk _ !! _) as [f|]; [destruct (writable f) |];
      try discriminate.
    intros [= <- <-]. split; [reflexivity |]. split; [reflexivity |].
    unfold perror, emit. cbn [log]. split.
    - rewrite !sent_app. cbn. now rewrite !app_empty_r.
    - right. eexists _, _. exact (eq_sym (List.app_assoc _ [_] [_])). }
  destruct (_ && _).
  { destruct (fopen_r _ _) as [[fp|] w2]; [| discriminate].
    destruct (fread _ _ _). discriminate. }
  destruct (_ && _); discriminate.
Qed.

(** The loop of servidor.c ends only through an exit of handle_command. *)
Lemma servidor_serve_exit junk conns w status w' :
  Servidor.serve junk conns w = Some (Exited status w') ->
  status = EXIT_FAILURE /\
  ((exists l fd, log w' = (l ++ [EvPerror "Error al leer del cliente"; EvClose fd])%list) \/
   (exists l k, log w' = (l ++ [EvFopen k "w" false;
                                EvPerror "No se pudo crear el archivo"])%list)).
Proof.
  revert w status w'. induction conns as [|a conns IH]; intros w status w'.
  - discriminate.
  - cbn [Servidor.serve]. destruct a as [e | c]; [apply IH |].
    destruct (Servidor.handle_command c junk _) as [w1 | st w1 |] eqn:E.
    + apply IH.
    + intros [= <- <-]. destruct (servidor_exit _ _ _ _ _ E) as (Hs & _ & _ & Hc).
      split; [exact Hs |]. destruct Hc as [[l Hl] | Hc]; [left; eauto | now right].
    + discriminate.
Qed.

(** X16.  servidor.c has no successful end of its own: main never returns
    and every call of exit passes EXIT_FAILURE.  When the program ends
    through exit it is either at start-up, because socket, setsockopt, bind
    or listen failed (no connection has been accepted, the disk is
    untouched), or from handle_command, right after a read that failed or
    returned nothing (reported, socket closed) or right after a SET whose
    file could not be created (reported).  An end of the process by a
    signal is not an exit of the program and is not covered. *)
Theorem servidor_exit_is_failure :
  forall (s : Servidor.Startup) (junk : Servidor.Locals)
         (conns : list AcceptResult) (w : World) (status : Z) (w' : World),
    Servidor.main s junk conns w = Some (Exited status w') ->
    status = EXIT_FAILURE /\
    (((Servidor.socket_r s < 0 \/ Servidor.setsockopt_r s < 0 \/
       Servidor.bind_r s < 0 \/ Servidor.listen_r s < 0)%Z /\
      accepts (log w') = accepts (log w) /\ disk w' = disk w) \/
     ((0 <= Servidor.socket_r s /\ 0 <= Servidor.setsockopt_r s /\
       0 <= Servidor.bind_r s /\ 0 <= Servidor.listen_r s)%Z /\
      ((exists l fd,
          log w' = (l ++ [EvPerror "Error al leer del cliente"; EvClose fd])%list) \/
       (exists l k,
          log w' = (l ++ [EvFopen k "w" false;
                          EvPerror "No se pudo crear el archivo"])%list)))).
Proof.
  intros s junk conns w status w'. unfold Servidor.main.
  destruct (Servidor.socket_r s <? 0)%Z eqn:E1.
  { apply Z.ltb_lt in E1. intros [= <- <-]. split; [reflexivity |]. left.
    split; [now left |]. unfold perror, emit. cbn [log disk].
    rewrite accepts_app. cbn. split; [lia | reflexivity]. }
  destruct (Servidor.setsockopt_r s <? 0)%Z eqn:E2.
  { apply Z.ltb_lt in E2. intros [= <- <-]. split; [reflexivity |]. left.
    split; [now right; left |]. unfold close, perror, emit. cbn [log disk].
    rewrite !accepts_app. cbn. split; [lia | reflexivity]. }
  destruct (Servidor.bind_r s <? 0)%Z eqn:E3.
  { apply Z.ltb_lt in E3. intros [= <- <-]. split; [reflexivity |]. left.
    split; [now right; right; left |]. unfold close, perror, emit. cbn [log disk].
    rewrite !accepts_app. cbn. split; [lia | reflexivity]. }
  destruct (Servidor.listen_r s <? 0)%Z eqn:E4.
  { apply Z.ltb_lt in E4. intros [= <- <-]. split; [reflexivity |]. left.
    split; [now right; right; right |]. unfold close, perror, emit. cbn [log disk].
    rewrite !accepts_app. cbn. split; [lia | reflexivity]. }
  apply Z.ltb_ge in E1, E2, E3, E4. intros H.
  destruct (servidor_serve_exit _ _ _ _ _ H) as [Hs Hc].
  split; [exact Hs |]. right. split; [repeat split; assumption | exact Hc].
Qed.

Lemma servidor_exit_is_failure_witness :
  let s := {| Servidor.socket_r := 3; Servidor.setsockopt_r := 0;
              Servidor.bind_r := 0; Servidor.listen_r := 0 |} in
  let w' := close 4 (perror "Error al leer del cliente"
                       (emit (EvRead 4)
                          (emit (EvAccept true)
                             (printf ("Servidor clave-valor escuchando en el puerto 5000..."
                                      ++ LF) blank)))) in
  EXIT_FAILURE = EXIT_FAILURE /\
  (((Servidor.socket_r s < 0 \/ Servidor.setsockopt_r s < 0 \/
     Servidor.bind_r s < 0 \/ Servidor.listen_r s < 0)%Z /\
    accepts (log w') = accepts (log blank) /\ disk w' = disk blank) \/
   ((0 <= Servidor.socket_r s /\ 0 <= Servidor.setsockopt_r s /\
     0 <= Servidor.bind_r s /\ 0 <= Servidor.listen_r s)%Z /\
    ((exists l fd,
        log w' = (l ++ [EvPerror "Error al leer del cliente"; EvClose fd])%list) \/
     (exists l k,
        log w' = (l ++ [EvFopen k "w" false;
                        EvPerror "No se pudo crear el archivo"])%list)))).
Proof.
  intros s w'.
  refine (servidor_exit_is_failure s zero_junk [AccConn (client 4 "")] blank
            EXIT_FAILURE w' _).
  reflexivity.
Defined.

End ServidorBehaviour.
